(** * TMDB-Embed-API: stream selection, aggregation routes and login governor

    A shallow embedding of the server module (quality scorer,
    [pickBestStream], the two [/api/streams] routes, the login attempt
    governor) and of the MP4Hydra provider's internal scorer, followed by
    the properties checked against the specification.

    Modelling conventions.
    - JavaScript values that the code inspects dynamically ([quality],
      [url], [provider] of a stream) are values of [JsVal]; numbers are
      integers (timestamps, scores and counters are the only numbers the
      code computes with).
    - Strings are [string]; labels are taken over ASCII, and
      [toUpperCase] maps [a-z] to [A-Z] and leaves every other character
      unchanged.
    - [Date.now()] is an explicit argument [now : Z] (milliseconds).
    - The module-level [loginAttempts] Map is a [gmap string Entry] that
      is threaded through the governor's functions.
    - An array that is sorted in place is returned next to the result.
    - A value thrown by this module, or by its own utilities, is an
      [Error] object carrying its [message]; what a provider's [fetch]
      rejects with is an [Error], [undefined] or [null] ([Thrown]).
    - The [metrics] counters and the console output are not modelled:
      nothing in the functions below reads them. *)

From Stdlib Require Import ZArith Lia Ascii String List Permutation Sorted.
From stdpp Require Import gmap strings list fin_maps pretty.

Local Open Scope string_scope.
Local Open Scope Z_scope.

(** ** JavaScript values *)

Inductive JsVal : Type :=
  | JUndefined
  | JNull
  | JBool (b : bool)
  | JNum (n : Z)
  | JStr (s : string)
  | JObject.

(** [!!v]: the truthiness test used by [if (v)], [!v], [a || b]. *)
Definition truthy (v : JsVal) : bool :=
  match v with
  | JUndefined | JNull => false
  | JBool b => b
  | JNum n => negb (n =? 0)
  | JStr s => negb (String.eqb s "")
  | JObject => true
  end.

(** [a === b] on the values the code compares (objects are compared by
    identity, which the opaque [JObject] does not carry: never equal). *)
Definition strictEq (a b : JsVal) : bool :=
  match a, b with
  | JUndefined, JUndefined => true
  | JNull, JNull => true
  | JBool x, JBool y => Bool.eqb x y
  | JNum x, JNum y => x =? y
  | JStr x, JStr y => String.eqb x y
  | _, _ => false
  end.

(** A thrown [Error]. *)
Record JsError : Type := mkError { message : string }.

(** Outcome of code that may throw. *)
Inductive Completion (A : Type) : Type :=
  | Normal (a : A)
  | Throw (e : JsError).
Arguments Normal {A} a.
Arguments Throw {A} e.

(** ** Strings *)

Definition upperAscii (c : ascii) : ascii :=
  let n := N_of_ascii c in
  if ((97 <=? n) && (n <=? 122))%N then ascii_of_N (n - 32) else c.

(** [s.toUpperCase()] *)
Fixpoint toUpperCase (s : string) : string :=
  match s with
  | EmptyString => EmptyString
  | String c s' => String (upperAscii c) (toUpperCase s')
  end.

(** [s.startsWith(p)] *)
Fixpoint startsWith (p s : string) : bool :=
  match p, s with
  | EmptyString, _ => true
  | String _ _, EmptyString => false
  | String a p', String b s' => Ascii.eqb a b && startsWith p' s'
  end.

(** [s.includes(needle)]: [needle] occurs at some position of [s]. *)
Fixpoint includes (s needle : string) : bool :=
  startsWith needle s ||
  match s with
  | EmptyString => false
  | String _ s' => includes s' needle
  end.

(** ** Quality scorers *)

(** [typeof v === 'string'] *)
Definition typeofString (v : JsVal) : bool :=
  match v with JStr _ => true | _ => false end.

(** [getQualityScore(q)] of the server module. *)
Definition getQualityScore (q : JsVal) : Z :=
  if negb (truthy q) || negb (typeofString q) then 0 else
  match q with
  | JStr s =>
      let upper := toUpperCase s in
      if includes upper "4K" || includes upper "2160" then 100
      else if includes upper "1440" || includes upper "2K" then 90
      else if includes upper "1080" then 80
      else if includes upper "720" then 60
      else if includes upper "480" || includes upper "SD" then 40
      else 20
  | _ => 0
  end.

(** [qualityScore(quality)] of [providers/MP4Hydra.js].  A truthy value
    that is not a string has no [toUpperCase] method: the call throws. *)
Definition qualityScore (quality : JsVal) : Completion Z :=
  if negb (truthy quality) then Normal 0 else
  match quality with
  | JStr s =>
      let q := toUpperCase s in
      if includes q "4K" || includes q "2160" then Normal 10
      else if includes q "1080" then Normal 8
      else if includes q "720" then Normal 6
      else if includes q "480" then Normal 4
      else Normal 2
  | _ => Throw (mkError "quality.toUpperCase is not a function")
  end.

(** The ordered substring table as the specification words it: the first
    row one of whose keys occurs in the label, case-insensitively, gives
    the score; no row gives 20. *)
Definition qualityTable : list (list string * Z) :=
  [ (["4K"; "2160"], 100);
    (["1440"; "2K"], 90);
    (["1080"], 80);
    (["720"], 60);
    (["480"; "SD"], 40) ].

Definition containsCI (label key : string) : bool :=
  includes (toUpperCase label) (toUpperCase key).

Definition tableScore (label : string) : Z :=
  match List.find (fun row => existsb (containsCI label) (fst row)) qualityTable with
  | Some row => snd row
  | None => 20
  end.

(** The scorer as the specification words it: the table on strings,
    20 for everything else. *)
Definition specQualityScore (q : JsVal) : Z :=
  match q with
  | JStr s => tableScore s
  | _ => 20
  end.

(** Two labels are ranked alike by the two scorers: the provider's
    scorer returns on both, and orders them strictly exactly when the
    server's scorer does. *)
Definition sameOrder (a b : string) : Prop :=
  exists x y : Z,
    qualityScore (JStr a) = Normal x /\ qualityScore (JStr b) = Normal y /\
    (x < y <-> getQualityScore (JStr a) < getQualityScore (JStr b)).

(** Labels of the tiers both scorers know: the server's scorer does not
    put the label in its 1440/2K tier, and puts it in its 480/SD tier
    only if it contains "480". *)
Definition onSharedTier (s : string) : bool :=
  let e := getQualityScore (JStr s) in
  negb (e =? 90) && (negb (e =? 40) || includes (toUpperCase s) "480").

(** ** Streams and selection *)

Record Subtitle : Type := mkSubtitle { sub_url : JsVal; sub_lang : JsVal }.

(** A stream object.  [headers] is [None] when the object has no such
    field. *)
Record Stream : Type := mkStream {
  title : JsVal;
  url : JsVal;
  quality : JsVal;
  provider : JsVal;
  headers : option (list (string * string));
  subtitles : list Subtitle
}.

(** The comparator handed to [candidates.sort]. *)
Definition compareStreams (a b : Stream) : Z :=
  let scoreA := getQualityScore (quality a) in
  let scoreB := getQualityScore (quality b) in
  if negb (scoreB =? scoreA) then scoreB - scoreA else 0.

(** [Array.prototype.sort(cmp)].  The language specifies the sort as
    stable; for a comparator that orders by a key, as [compareStreams]
    does, the sorted array is then unique ([arraySort_unique]), and
    stable insertion computes it: an element moves behind exactly those
    elements it compares strictly greater than. *)
Fixpoint sortInsert {A : Type} (cmp : A -> A -> Z) (x : A) (l : list A) : list A :=
  match l with
  | [] => [x]
  | y :: l' => if cmp x y <=? 0 then x :: l else y :: sortInsert cmp x l'
  end.

Fixpoint arraySort {A : Type} (cmp : A -> A -> Z) (l : list A) : list A :=
  match l with
  | [] => []
  | x :: l' => sortInsert cmp x (arraySort cmp l')
  end.

(** [pickBestStream(streams, preferredProvider)].  Returns the selected
    stream ([None] for [null]) together with the caller's array as the
    call leaves it: [candidates] aliases [streams] unless a preferred
    provider is given, in which case [filter] allocates a new array. *)
Definition pickBestStream (streams : list Stream) (preferredProvider : JsVal)
  : option Stream * list Stream :=
  if (length streams =? 0)%nat then (None, streams) else
  if truthy preferredProvider then
    let candidates :=
      List.filter (fun s => strictEq (provider s) preferredProvider) streams in
    if (length candidates =? 0)%nat then (None, streams)
    else (head (arraySort compareStreams candidates), streams)
  else
    let candidates := arraySort compareStreams streams in
    (head candidates, candidates).

(** The sort key of a stream. *)
Definition scoreOf (s : Stream) : Z := getQualityScore (quality s).

(** Descending by score. *)
Definition descending (a b : Stream) : Prop := scoreOf a >= scoreOf b.

(** The candidates [pickBestStream] ranks, in the order of [streams]. *)
Definition candidatesOf (streams : list Stream) (preferredProvider : JsVal) : list Stream :=
  if truthy preferredProvider
  then List.filter (fun s => strictEq (provider s) preferredProvider) streams
  else streams.

(** A stream as a provider builds it, for the examples. *)
Definition sampleStream (prov q u : string) (h : option (list (string * string))) : Stream :=
  {| title := JStr (prov +:+ " - " +:+ q); url := JStr u; quality := JStr q;
     provider := JStr prov; headers := h; subtitles := [] |}.

Definition a720 : Stream := sampleStream "a" "720p" "u1" None.
Definition b1080 : Stream := sampleStream "b" "1080p" "u2" None.
Definition c1080 : Stream :=
  sampleStream "c" "1080p" "u3" (Some [("Referer", "https://c.example/")]).
Definition d480 : Stream := sampleStream "d" "480p" "" None.

(** ** The [/api/streams] routes *)

(** A registered provider as the routes see it. *)
Record Provider : Type := mkProvider { name : string; enabled : bool }.

(** What a provider's [fetch] may reject with: an object such as an
    [Error], or nothing at all ([reject()] leaves [undefined]). *)
Inductive Thrown : Type :=
  | ThrownError (e : JsError)
  | ThrownUndefined
  | ThrownNull.

(** [e.message] for a caught [e]: reading a property of [undefined] or
    [null] throws a [TypeError]. *)
Definition messageOf (e : Thrown) : Completion string :=
  match e with
  | ThrownError err => Normal (message err)
  | ThrownUndefined =>
      Throw (mkError "Cannot read properties of undefined (reading 'message')")
  | ThrownNull =>
      Throw (mkError "Cannot read properties of null (reading 'message')")
  end.

(** Outcome of [await prov.fetch(criteria)], with the time the call took
    ([Date.now() - t0]) when it resolves. *)
Inductive FetchOutcome : Type :=
  | Resolved (r : list Stream) (elapsed : Z)
  | Rejected (e : Thrown).

(** An entry of [providerTimings]. *)
Inductive Timing : Type :=
  | TimingMs (ms : Z)
  | TimingNull.

(** The part of an Express request the routes read.  Query parameters
    are [None] when absent ([undefined]). *)
Record Request : Type := mkRequest {
  params_provider : string;
  params_type : string;
  params_tmdbId : string;
  query_season : option string;
  query_episode : option string;
  query_direct : option string;
  query_provider : option string
}.

(** Configuration and collaborators of the routes ([utils/config],
    [providers/registry], [utils/tmdb], [utils/streamFilters],
    [proxy/proxyServer]), none of which is part of this module.  [fetch]
    gives the outcome of a provider's fetch for the criteria built from
    the request and the resolved IMDb id; [applyFilters] is taken with
    the configured [minQualities] and [excludeCodecs]. *)
Record Env : Type := mkEnv {
  config_enableProxy : bool;
  config_defaultProviders : list string;
  listProviders : list Provider;
  getProvider : string -> option Provider;
  fetch : Provider -> Request -> option string -> FetchOutcome;
  resolveImdbId : string -> string -> Completion (option string);
  applyFilters : list Stream -> string -> list Stream;
  processStreamsForProxy : list Stream -> string -> list Stream
}.

Inductive JsonBody : Type :=
  | ErrorBody (error : string) (msg : option string)
  | StreamsBody (prov : option string) (tmdbId : string) (imdbId : option string)
      (count : Z) (providerTimings : gmap string Timing) (streams : list Stream).

(** [Unanswered e]: the handler throws [e] out of its [catch] block, so
    that its promise rejects and the route sends nothing. *)
Inductive Response : Type :=
  | Json (status : Z) (body : JsonBody)
  | Text (status : Z) (body : string)
  | Redirect (status : Z) (location : JsVal)
  | Unanswered (e : JsError).

(** String conversion of a value inside a template literal or [+]. *)
Definition toStr (v : JsVal) : string :=
  match v with
  | JUndefined => "undefined"
  | JNull => "null"
  | JBool true => "true"
  | JBool false => "false"
  | JNum n => pretty n
  | JStr s => s
  | JObject => "[object Object]"
  end.

(** [a || b] *)
Definition orElse (a b : JsVal) : JsVal := if truthy a then a else b.

(** The bullet of the comment line, U+2022 in UTF-8. *)
Definition bullet : string :=
  String (ascii_of_N 226) (String (ascii_of_N 128) (String (ascii_of_N 162) EmptyString)).

Definition newline : string := String (ascii_of_N 10) EmptyString.

Definition commentLine (who : string) (best : Stream) (tmdbId : string) : string :=
  "# " +:+ who +:+ " " +:+ bullet +:+ " "
       +:+ toStr (orElse (quality best) (JStr "unknown"))
       +:+ " " +:+ bullet +:+ " " +:+ tmdbId +:+ newline.

Definition validType (type : string) : bool :=
  String.eqb type "movie" || String.eqb type "series".

Definition tmdbTypeOf (type : string) : string :=
  if String.eqb type "movie" then "movie" else "tv".

(** One callback of [selectedProviders.map(async name => ...)]: the
    streams it resolves to and [providerTimings] after it.  Its [catch]
    block reads [e.message] for the log before it writes the [null]
    timing: when that read throws, the callback rejects. *)
Definition invokeProvider (env : Env) (req : Request) (imdbId : option string)
    (providerTimings : gmap string Timing) (name : string)
  : Completion (list Stream * gmap string Timing) :=
  match getProvider env name with
  | None => Normal ([], providerTimings)
  | Some prov =>
      if negb (enabled prov) then Normal ([], providerTimings) else
      match fetch env prov req imdbId with
      | Resolved r elapsed => Normal (r, <[name := TimingMs elapsed]> providerTimings)
      | Rejected e =>
          match messageOf e with
          | Throw err => Throw err
          | Normal _ => Normal ([], <[name := TimingNull]> providerTimings)
          end
      end
  end.

(** [await Promise.all(selectedProviders.map(...))]: the results in
    selection order, or the rejection of a callback.  The callbacks write
    [providerTimings] as they complete; the timing written for a name is
    fixed by the provider's outcome, so the final map does not depend on
    the completion order (see [fanOut_order]).  When several callbacks
    reject, the batch rejects with the earliest rejection; the model
    takes the first in selection order, which differs from it at most in
    the wording of the [TypeError]. *)
Fixpoint fanOut (env : Env) (req : Request) (imdbId : option string)
    (selectedProviders : list string) (providerTimings : gmap string Timing)
  : Completion (list (list Stream) * gmap string Timing) :=
  match selectedProviders with
  | [] => Normal ([], providerTimings)
  | name :: rest =>
      match invokeProvider env req imdbId providerTimings name with
      | Throw err => Throw err
      | Normal (r, timings1) =>
          match fanOut env req imdbId rest timings1 with
          | Throw err => Throw err
          | Normal (results, timings2) => Normal (r :: results, timings2)
          end
      end
  end.

Definition selectedProvidersOf (env : Env) : list string :=
  if negb (length (config_defaultProviders env) =? 0)%nat
  then config_defaultProviders env
  else List.map name (listProviders env).

(** The template literal that builds [serverUrl] holds no placeholder:
    its value is this text for every request. *)
Definition serverUrlOf (req : Request) : string :=
  "( {req.protocol}:// ){req.get('host')}".

(** [const { headers, ...rest } = s; return rest;] -- every element of
    the list is a stream object, for which the guard
    [s && typeof s === 'object'] holds. *)
Definition stripHeaders (s : Stream) : Stream :=
  {| title := title s; url := url s; quality := quality s;
     provider := provider s; headers := None; subtitles := subtitles s |}.

(** The [if (config.enableProxy) { ... }] block shared by both routes. *)
Definition relayStage (env : Env) (req : Request) (streams : list Stream) : list Stream :=
  if config_enableProxy env then
    List.map stripHeaders (processStreamsForProxy env streams (serverUrlOf req))
  else streams.

Definition isDirect (req : Request) : bool :=
  match query_direct req with Some _ => true | None => false end.

Definition isRedirect (req : Request) : bool :=
  match query_direct req with Some v => String.eqb v "redirect" | None => false end.

Definition preferredProviderOf (req : Request) : JsVal :=
  match query_provider req with
  | Some p => orElse (JStr p) JNull
  | None => JNull
  end.

(** The direct-mode block: [notFound] is the 404 text and [who] the
    provider printed in the comment line. *)
Definition directResponse (req : Request) (best : option Stream)
    (notFound : string) (who : Stream -> string) : Response :=
  match best with
  | None => Text 404 notFound
  | Some b =>
      if negb (truthy (url b)) then Text 404 notFound
      else if isRedirect req then Redirect 302 (url b)
      else Text 200 (commentLine (who b) b (params_tmdbId req) +:+ toStr (url b))
  end.

(** The [catch (e)] of a route for what a provider rejected with: the
    500 carries [e.message], and reading it off [undefined] or [null]
    throws inside the [catch]. *)
Definition outerCatch (e : Thrown) : Response :=
  match messageOf e with
  | Normal msg => Json 500 (ErrorBody "INTERNAL_ERROR" (Some msg))
  | Throw err => Unanswered err
  end.

(** [GET /api/streams/:type/:tmdbId] *)
Definition getAggregateStreams (env : Env) (req : Request) : Response :=
  if negb (validType (params_type req)) then Json 400 (ErrorBody "INVALID_TYPE" None) else
  match resolveImdbId env (tmdbTypeOf (params_type req)) (params_tmdbId req) with
  | Throw e => Json 500 (ErrorBody "INTERNAL_ERROR" (Some (message e)))
  | Normal imdbId =>
      match fanOut env req imdbId (selectedProvidersOf env) ∅ with
      | Throw e => Json 500 (ErrorBody "INTERNAL_ERROR" (Some (message e)))
      | Normal (results, providerTimings) =>
          let streams := concat results in
          let streams := applyFilters env streams "aggregate" in
          let streams := relayStage env req streams in
          if isDirect req then
            let best := fst (pickBestStream streams (preferredProviderOf req)) in
            directResponse req best "No suitable stream found"
              (fun b => toStr (provider b))
          else
            Json 200 (StreamsBody None (params_tmdbId req) imdbId
                        (Z.of_nat (length streams)) providerTimings streams)
      end
  end.

(** [GET /api/streams/:provider/:type/:tmdbId] *)
Definition getProviderStreams (env : Env) (req : Request) : Response :=
  if negb (validType (params_type req)) then Json 400 (ErrorBody "INVALID_TYPE" None) else
  match getProvider env (params_provider req) with
  | None => Json 404 (ErrorBody "PROVIDER_NOT_FOUND" None)
  | Some prov =>
      if negb (enabled prov) then Json 503 (ErrorBody "PROVIDER_DISABLED" None) else
      match resolveImdbId env (tmdbTypeOf (params_type req)) (params_tmdbId req) with
      | Throw e => Json 500 (ErrorBody "INTERNAL_ERROR" (Some (message e)))
      | Normal imdbId =>
          match fetch env prov req imdbId with
          | Rejected e => outerCatch e
          | Resolved streams elapsed =>
              let providerTimings : gmap string Timing := {[ name prov := TimingMs elapsed ]} in
              let streams := applyFilters env streams (name prov) in
              let streams := relayStage env req streams in
              if isDirect req then
                let best := fst (pickBestStream streams (JStr (params_provider req))) in
                directResponse req best ("No stream from " +:+ params_provider req)
                  (fun _ => params_provider req)
              else
                Json 200 (StreamsBody (Some (name prov)) (params_tmdbId req) imdbId
                            (Z.of_nat (length streams)) providerTimings streams)
          end
      end
  end.

(** What a selected provider's callback adds to the batch, the timing
    entry it leaves, if any, and the error it rejects with, if any. *)
Definition contribution (env : Env) (req : Request) (imdbId : option string)
    (name : string) : list Stream :=
  match invokeProvider env req imdbId ∅ name with
  | Normal (r, _) => r
  | Throw _ => []
  end.

Definition timingOf (env : Env) (req : Request) (imdbId : option string)
    (name : string) : option Timing :=
  match invokeProvider env req imdbId ∅ name with
  | Normal (_, timings) => timings !! name
  | Throw _ => None
  end.

Definition callbackError (env : Env) (req : Request) (imdbId : option string)
    (name : string) : option JsError :=
  match invokeProvider env req imdbId ∅ name with
  | Normal _ => None
  | Throw err => Some err
  end.

(** The streams each route has in hand after filtering and relaying. *)
Definition aggregateStreamsOf (env : Env) (req : Request) (results : list (list Stream))
  : list Stream :=
  relayStage env req (applyFilters env (concat results) "aggregate").

Definition providerStreamsOf (env : Env) (req : Request) (prov : Provider)
    (r : list Stream) : list Stream :=
  relayStage env req (applyFilters env r (name prov)).

(** The streams a response carries. *)
Definition responseStreams (r : Response) : list Stream :=
  match r with
  | Json _ (StreamsBody _ _ _ _ _ streams) => streams
  | _ => []
  end.

(** An environment for the examples: providers a, b, c, d are
    registered and enabled, the relay re-addresses streams that carry
    headers, nothing is filtered out. *)
Definition exampleRelay (streams : list Stream) (serverUrl : string) : list Stream :=
  List.map (fun s =>
              match headers s with
              | Some _ =>
                  {| title := title s;
                     url := JStr (serverUrl +:+ "/proxy?url=" +:+ toStr (url s));
                     quality := quality s; provider := provider s;
                     headers := headers s; subtitles := subtitles s |}
              | None => s
              end) streams.

Definition exampleEnv (proxy : bool) (selected : list string)
    (outcome : string -> FetchOutcome) : Env :=
  {| config_enableProxy := proxy;
     config_defaultProviders := selected;
     listProviders := List.map (fun n => mkProvider n true) ["a"; "b"; "c"; "d"];
     getProvider := fun n =>
       if existsb (String.eqb n) ["a"; "b"; "c"; "d"] then Some (mkProvider n true) else None;
     fetch := fun prov _ _ => outcome (name prov);
     resolveImdbId := fun _ _ => Normal (Some "tt0133093");
     applyFilters := fun streams _ => streams;
     processStreamsForProxy := exampleRelay |}.

(** a and c answer, b rejects. *)
Definition oneRejects (n : string) : FetchOutcome :=
  if String.eqb n "a" then Resolved [a720] 12
  else if String.eqb n "c" then Resolved [c1080] 30
  else Rejected (ThrownError (mkError "timeout of 10000ms exceeded")).

(** a and c answer, b rejects without a reason, as
    [new Promise((_, reject) => setTimeout(reject, ms))] does. *)
Definition oneRejectsUndefined (n : string) : FetchOutcome :=
  if String.eqb n "a" then Resolved [a720] 12
  else if String.eqb n "c" then Resolved [c1080] 30
  else Rejected ThrownUndefined.

(** Every provider answers with a stream labelled as provider b's. *)
Definition labelledB (n : string) : FetchOutcome := Resolved [b1080] 3.

(** d answers with a stream without url. *)
Definition noUrl (n : string) : FetchOutcome := Resolved [d480] 7.

Definition exampleRequest (prov : string) (direct : option string) : Request :=
  {| params_provider := prov; params_type := "movie"; params_tmdbId := "603";
     query_season := None; query_episode := None; query_direct := direct;
     query_provider := None |}.

(** ** Login attempt governor *)

Module Governor.

Definition MAX_ATTEMPTS_WINDOW : Z := 5.
Definition WINDOW_MS : Z := 10 * 60 * 1000.
Definition BASE_LOCK_MS : Z := 5 * 60 * 1000.

(** A value of the [loginAttempts] Map. *)
Record Entry : Type := mkEntry {
  count : Z;
  first : Z;
  last : Z;
  lockedUntil : Z
}.

(** What [canAttempt] returns; [retryAfter] is present only on denial. *)
Record AttemptState : Type := mkAttemptState {
  allowed : bool;
  retryAfter : option Z
}.

(** [Math.ceil(n / d)] for integers [n] and [d > 0]. *)
Definition ceilDiv (n d : Z) : Z := - ((- n) / d).

(** [BASE_LOCK_MS * Math.min(8, Math.pow(2, over-1))]; [over >= 1]
    wherever it is computed, so the power is an integer. *)
Definition lockMsOf (over : Z) : Z := BASE_LOCK_MS * Z.min 8 (2 ^ (over - 1)).

(** [recordLoginFailure(ip)] at time [now]: the entry it returns and
    the Map afterwards. *)
Definition recordLoginFailure (ip : string) (now : Z)
    (loginAttempts : gmap string Entry) : Entry * gmap string Entry :=
  match loginAttempts !! ip with
  | None =>
      let entry := {| count := 1; first := now; last := now; lockedUntil := 0 |} in
      (entry, <[ip := entry]> loginAttempts)
  | Some entry =>
      let entry :=
        if (now - first entry >? WINDOW_MS) && (now >? lockedUntil entry)
        then {| count := 1; first := now;
                last := last entry; lockedUntil := lockedUntil entry |}
        else {| count := count entry + 1; first := first entry;
                last := last entry; lockedUntil := lockedUntil entry |} in
      let entry :=
        {| count := count entry; first := first entry;
           last := now; lockedUntil := lockedUntil entry |} in
      let entry :=
        if count entry >? MAX_ATTEMPTS_WINDOW then
          let over := count entry - MAX_ATTEMPTS_WINDOW in
          let lockMs := lockMsOf over in
          {| count := count entry; first := first entry;
             last := last entry; lockedUntil := now + lockMs |}
        else entry in
      (entry, <[ip := entry]> loginAttempts)
  end.

(** [canAttempt(ip)] at time [now]. *)
Definition canAttempt (ip : string) (now : Z)
    (loginAttempts : gmap string Entry) : AttemptState * gmap string Entry :=
  match loginAttempts !! ip with
  | None => ({| allowed := true; retryAfter := None |}, loginAttempts)
  | Some entry =>
      if negb (lockedUntil entry =? 0) && (now <? lockedUntil entry) then
        ({| allowed := false;
            retryAfter := Some (ceilDiv (lockedUntil entry - now) 1000) |},
         loginAttempts)
      else if now - first entry >? WINDOW_MS then
        ({| allowed := true; retryAfter := None |}, delete ip loginAttempts)
      else ({| allowed := true; retryAfter := None |}, loginAttempts)
  end.

(** [recordLoginSuccess(ip)] *)
Definition recordLoginSuccess (ip : string)
    (loginAttempts : gmap string Entry) : gmap string Entry :=
  delete ip loginAttempts.

(** Failures recorded one after the other for [ip] at the given times. *)
Fixpoint recordFailures (ip : string) (times : list Z)
    (loginAttempts : gmap string Entry) : gmap string Entry :=
  match times with
  | [] => loginAttempts
  | now :: rest => recordFailures ip rest (snd (recordLoginFailure ip now loginAttempts))
  end.

End Governor.

(** ** Further string operations *)

Definition lowerAscii (c : ascii) : ascii :=
  let n := N_of_ascii c in
  if ((65 <=? n) && (n <=? 90))%N then ascii_of_N (n + 32) else c.

(** [s.toLowerCase()] *)
Fixpoint toLowerCase (s : string) : string :=
  match s with
  | EmptyString => EmptyString
  | String c s' => String (lowerAscii c) (toLowerCase s')
  end.

(** The class [\s] and the characters [trim] strips, over ASCII: tab,
    line feed, vertical tab, form feed, carriage return, space. *)
Definition isSpace (c : ascii) : bool :=
  let n := N_of_ascii c in
  ((9 <=? n) && (n <=? 13) || (n =? 32))%N.

(** The class [\w]: letters, digits, underscore. *)
Definition isWord (c : ascii) : bool :=
  let n := N_of_ascii c in
  ((48 <=? n) && (n <=? 57) || (65 <=? n) && (n <=? 90)
   || (97 <=? n) && (n <=? 122) || (n =? 95))%N.

Definition isHyphen (c : ascii) : bool := Ascii.eqb c "-".

Definition isComma (c : ascii) : bool := Ascii.eqb c ",".

(** Every character of [s] satisfies [q]. *)
Fixpoint allChars (q : ascii -> bool) (s : string) : bool :=
  match s with
  | EmptyString => true
  | String c s' => q c && allChars q s'
  end.

(** [s.replace(/[...]/g, '')] for a character class: the characters
    outside [keep] are deleted. *)
Fixpoint keepChars (keep : ascii -> bool) (s : string) : string :=
  match s with
  | EmptyString => EmptyString
  | String c s' => if keep c then String c (keepChars keep s') else keepChars keep s'
  end.

(** [s.replace(/C+/g, r)] for a character class [C]: every maximal run
    of characters of the class becomes the single character [r].
    [inRun] tells that the previous character belonged to a run. *)
Fixpoint collapseRuns (cls : ascii -> bool) (r : ascii) (inRun : bool) (s : string) : string :=
  match s with
  | EmptyString => EmptyString
  | String c s' =>
      if cls c then
        if inRun then collapseRuns cls r true s'
        else String r (collapseRuns cls r true s')
      else String c (collapseRuns cls r false s')
  end.

(** [s.trimStart()], [s.trimEnd()], [s.trim()] *)
Fixpoint trimStart (s : string) : string :=
  match s with
  | EmptyString => EmptyString
  | String c s' => if isSpace c then trimStart s' else s
  end.

Fixpoint trimEnd (s : string) : string :=
  match s with
  | EmptyString => EmptyString
  | String c s' =>
      match trimEnd s' with
      | EmptyString => if isSpace c then EmptyString else String c EmptyString
      | r => String c r
      end
  end.

Definition trim (s : string) : string := trimEnd (trimStart s).

(** [s.split(',')[0]]: the text before the first comma, all of [s] when
    it has none. *)
Fixpoint firstField (s : string) : string :=
  match s with
  | EmptyString => EmptyString
  | String c s' => if isComma c then EmptyString else String c (firstField s')
  end.

(** [a || b] for a header or property that is a string when present. *)
Definition strOr (a : option string) (b : string) : string :=
  match a with
  | Some s => if String.eqb s "" then b else s
  | None => b
  end.

(** ** The MP4Hydra provider *)

(** [generateSlug(title)] *)
Definition generateSlug (title : string) : string :=
  collapseRuns isHyphen "-" false
    (collapseRuns isSpace "-" false
       (keepChars (fun c => isWord c || isSpace c || isHyphen c)
          (toLowerCase title))).

(** The characters of a slug: lower-case letters, digits, underscore,
    hyphen. *)
Definition slugChar (c : ascii) : bool :=
  let n := N_of_ascii c in
  ((48 <=? n) && (n <=? 57) || (97 <=? n) && (n <=? 122) || (n =? 95) || (n =? 45))%N.

(** No hyphen follows a hyphen; [afterHyphen] tells that one precedes. *)
Fixpoint hyphensApart (afterHyphen : bool) (s : string) : bool :=
  match s with
  | EmptyString => true
  | String c s' =>
      if isHyphen c then negb afterHyphen && hyphensApart true s'
      else hyphensApart false s'
  end.

(** The callback of [streams.reduce] in [getMP4HydraDirectStream]; the
    score of [curr] is computed before that of [prev]. *)
Definition reduceBest (prev curr : Stream) : Completion Stream :=
  match qualityScore (quality curr) with
  | Throw e => Throw e
  | Normal scoreCurr =>
      match qualityScore (quality prev) with
      | Throw e => Throw e
      | Normal scorePrev => Normal (if scoreCurr >? scorePrev then curr else prev)
      end
  end.

(** [rest.reduce(reduceBest, acc)] *)
Fixpoint reduceFrom (acc : Stream) (rest : list Stream) : Completion Stream :=
  match rest with
  | [] => Normal acc
  | curr :: rest' =>
      match reduceBest acc curr with
      | Throw e => Throw e
      | Normal acc' => reduceFrom acc' rest'
      end
  end.

(** [getMP4HydraDirectStream], from the streams that
    [fetchAndProcessMP4Hydra] resolved to (it never rejects): [null] for
    no stream, else the [url] of the stream the reduction without initial
    value selects. *)
Definition getMP4HydraDirectStream (streams : list Stream) : Completion (option JsVal) :=
  match streams with
  | [] => Normal None
  | s0 :: rest =>
      match reduceFrom s0 rest with
      | Throw e => Throw e
      | Normal best => Normal (Some (url best))
      end
  end.

(** The first element of [acc :: rest] whose key no other exceeds. *)
Definition firstMaxFrom {A : Type} (key : A -> Z) (acc : A) (rest : list A) : A :=
  fold_left (fun best curr => if key curr >? key best then curr else best) rest acc.

(** The provider's score of a stream, 0 where the scorer throws. *)
Definition hydraScoreOf (s : Stream) : Z :=
  match qualityScore (quality s) with
  | Normal z => z
  | Throw _ => 0
  end.

(** A quality on which [qualityScore] throws. *)
Definition badQuality (v : JsVal) : bool := truthy v && negb (typeofString v).

(** A quality of the tiers both scorers know. *)
Definition sharedQuality (v : JsVal) : bool :=
  match v with
  | JStr s => onSharedTier s
  | _ => negb (truthy v)
  end.

(** ** The login route *)

(** What [POST /auth/login] reads of a request. *)
Record LoginRequest : Type := mkLoginRequest {
  body_username : JsVal;
  body_password : JsVal;
  header_forwarded_for : option string;
  remoteAddress : option string
}.

(** [getClientIp(req)] *)
Definition getClientIp (req : LoginRequest) : string :=
  trim (firstField (strOr (header_forwarded_for req) (strOr (remoteAddress req) ""))).

(** The collaborators of the route ([utils/auth]). *)
Record Auth : Type := mkAuth {
  authenticate : JsVal -> JsVal -> bool;
  issueSession : JsVal -> string
}.

(** The readings of [Date.now()] during one request, in program order:
    in [canAttempt], in [recordLoginFailure], in the lock test of the
    handler and in its [retryAfter]. *)
Record Clock : Type := mkClock {
  now_canAttempt : Z;
  now_recordFailure : Z;
  now_lockTest : Z;
  now_retryAfter : Z
}.

(** A request served within one millisecond. *)
Definition instant (t : Z) : Clock :=
  {| now_canAttempt := t; now_recordFailure := t; now_lockTest := t; now_retryAfter := t |}.

(** The responses of the route.  The 429 responses carry [retryAfter]
    in the body and in the [Retry-After] header; the 200 response carries
    the user name in the body and the [Set-Cookie] header. *)
Inductive LoginResponse : Type :=
  | TooManyAttempts (retry : option Z)
  | MissingCredentials
  | Locked (retry : Z)
  | InvalidCredentials (remaining : Z)
  | LoggedIn (username : JsVal) (setCookie : string).

(** The value of the [Set-Cookie] header.  The template literal that
    builds it holds no placeholder: [issueSession] is called and creates
    the session, but its token is not part of the text. *)
Definition sessionCookie (token : string) : string :=
  "session=( {token}; HttpOnly; SameSite=Lax; Path=/; Max-Age= ){12*60*60}".

(** [POST /auth/login]: the response and [loginAttempts] afterwards. *)
Definition postLogin (auth : Auth) (clock : Clock) (req : LoginRequest)
    (loginAttempts : gmap string Governor.Entry)
  : LoginResponse * gmap string Governor.Entry :=
  let username := body_username req in
  let password := body_password req in
  let ip := getClientIp req in
  let '(attemptState, loginAttempts) :=
    Governor.canAttempt ip (now_canAttempt clock) loginAttempts in
  if negb (Governor.allowed attemptState) then
    (TooManyAttempts (Governor.retryAfter attemptState), loginAttempts)
  else if negb (truthy username) || negb (truthy password) then
    (MissingCredentials, loginAttempts)
  else if negb (authenticate auth username password) then
    let '(entry, loginAttempts) :=
      Governor.recordLoginFailure ip (now_recordFailure clock) loginAttempts in
    if negb (Governor.lockedUntil entry =? 0)
       && (now_lockTest clock <? Governor.lockedUntil entry) then
      (Locked (Governor.ceilDiv (Governor.lockedUntil entry - now_retryAfter clock) 1000),
       loginAttempts)
    else
      (InvalidCredentials
         (Z.max 0 (Governor.MAX_ATTEMPTS_WINDOW - Governor.count entry)),
       loginAttempts)
  else
    let loginAttempts := Governor.recordLoginSuccess ip loginAttempts in
    let token := issueSession auth username in
    (LoggedIn username (sessionCookie token), loginAttempts).

(** Requests served one after the other, each within one millisecond. *)
Fixpoint postLogins (auth : Auth) (requests : list (Z * LoginRequest))
    (loginAttempts : gmap string Governor.Entry)
  : list LoginResponse * gmap string Governor.Entry :=
  match requests with
  | [] => ([], loginAttempts)
  | (t, req) :: rest =>
      let '(resp, m1) := postLogin auth (instant t) req loginAttempts in
      let '(resps, m2) := postLogins auth rest m1 in
      (resp :: resps, m2)
  end.

(** The operations on [loginAttempts], and a history of them. *)
Inductive GovernorOp : Type :=
  | OpAttempt (ip : string) (now : Z)
  | OpFailure (ip : string) (now : Z)
  | OpSuccess (ip : string).

Definition applyOp (m : gmap string Governor.Entry) (op : GovernorOp)
  : gmap string Governor.Entry :=
  match op with
  | OpAttempt ip now => snd (Governor.canAttempt ip now m)
  | OpFailure ip now => snd (Governor.recordLoginFailure ip now m)
  | OpSuccess ip => Governor.recordLoginSuccess ip m
  end.

Definition runOps (ops : list GovernorOp) (m : gmap string Governor.Entry)
  : gmap string Governor.Entry :=
  fold_left applyOp ops m.

(** The lock of an entry is running at [now], as [canAttempt] and the
    login route test it. *)
Definition lockActive (e : Governor.Entry) (now : Z) : bool :=
  negb (Governor.lockedUntil e =? 0) && (now <? Governor.lockedUntil e).

(** The identity an operation concerns. *)
Definition opIp (op : GovernorOp) : string :=
  match op with
  | OpAttempt ip _ => ip
  | OpFailure ip _ => ip
  | OpSuccess ip => ip
  end.

(** What every stored entry satisfies: it counts at least one failure,
    and over the threshold its lock runs from its last failure. *)
Definition entryOk (e : Governor.Entry) : Prop :=
  1 <= Governor.count e /\
  (Governor.MAX_ATTEMPTS_WINDOW < Governor.count e ->
   Governor.lockedUntil e =
   Governor.last e + Governor.lockMsOf (Governor.count e - Governor.MAX_ATTEMPTS_WINDOW)).

(** An account and two requests for the examples. *)
Definition exampleAuth : Auth :=
  {| authenticate := fun u p => strictEq u (JStr "admin") && strictEq p (JStr "s3cret");
     issueSession := fun u => "token-for-" +:+ toStr u |}.

Definition wrongPassword (forwardedFor : string) : LoginRequest :=
  {| body_username := JStr "admin"; body_password := JStr "guess";
     header_forwarded_for := Some forwardedFor; remoteAddress := Some "192.0.2.1" |}.

Definition rightPassword (forwardedFor : string) : LoginRequest :=
  {| body_username := JStr "admin"; body_password := JStr "s3cret";
     header_forwarded_for := Some forwardedFor; remoteAddress := Some "192.0.2.1" |}.

(** * Properties *)

(** ** Quality scoring *)

Example score_4k : getQualityScore (JStr "4k hdr") = 100.
Proof. reflexivity. Qed.

Example score_sd : getQualityScore (JStr "WEB sd") = 40.
Proof. reflexivity. Qed.

Example score_first_row_wins : getQualityScore (JStr "1080p (4K source)") = 100.
Proof. reflexivity. Qed.

Example hydra_1440 : qualityScore (JStr "1440p") = Normal 2.
Proof. reflexivity. Qed.

Example hydra_number_throws :
  qualityScore (JNum 1080) = Throw (mkError "quality.toUpperCase is not a function").
Proof. reflexivity. Qed.

Lemma truthy_JStr (s : string) : truthy (JStr s) = negb (String.eqb s "").
Proof. reflexivity. Qed.

Lemma truthy_nonempty (s : string) : s <> "" -> truthy (JStr s) = true.
Proof.
  intros Hs. rewrite truthy_JStr.
  destruct (String.eqb_spec s ""); [contradiction | reflexivity].
Qed.

(** On a non-empty string the if-chain of [getQualityScore] is the
    first-match lookup in [qualityTable]. *)
Lemma getQualityScore_nonempty (s : string) :
  s <> "" -> getQualityScore (JStr s) = tableScore s.
Proof.
  intros Hs. unfold getQualityScore, tableScore, qualityTable, containsCI.
  rewrite (truthy_nonempty s Hs).
  cbn [negb orb typeofString List.find existsb fst snd].
  change (toUpperCase "4K") with "4K".
  change (toUpperCase "2160") with "2160".
  change (toUpperCase "1440") with "1440".
  change (toUpperCase "2K") with "2K".
  change (toUpperCase "1080") with "1080".
  change (toUpperCase "720") with "720".
  change (toUpperCase "480") with "480".
  change (toUpperCase "SD") with "SD".
  generalize (toUpperCase s); intros u.
  rewrite !orb_false_r.
  repeat match goal with
         | |- context [if ?b then _ else _] => destruct b
         end; reflexivity.
Qed.

(** C2, as stated, fails: the empty string and non-strings score 0, not
    the 20 of the table's last line. *)
Lemma getQualityScore_falsy_not_20 :
  getQualityScore (JStr "") = 0 /\ specQualityScore (JStr "") = 20 /\
  getQualityScore JNull = 0 /\ specQualityScore JNull = 20.
Proof. repeat split; reflexivity. Qed.

(** C2 (amended): [getQualityScore] is 0 on the empty string and on
    every non-string value, and on every non-empty string it is the
    first-match lookup in the ordered table (100, 90, 80, 60, 40, else
    20); so 4K > 1080p > 720p > 480p > null, and null scores as "". *)
Theorem getQualityScore_table :
  (forall q : JsVal,
      getQualityScore q =
      match q with
      | JStr s => if String.eqb s "" then 0 else tableScore s
      | _ => 0
      end) /\
  getQualityScore (JStr "4K") > getQualityScore (JStr "1080p") /\
  getQualityScore (JStr "1080p") > getQualityScore (JStr "720p") /\
  getQualityScore (JStr "720p") > getQualityScore (JStr "480p") /\
  getQualityScore (JStr "480p") > getQualityScore JNull /\
  getQualityScore JNull = getQualityScore (JStr "").
Proof.
  split; [| repeat split; reflexivity].
  intros [ | | b | n | s | ]; try reflexivity.
  - destruct b; reflexivity.
  - unfold getQualityScore. simpl. destruct (n =? 0); reflexivity.
  - destruct (String.eqb_spec s "") as [-> | Hs]; [reflexivity |].
    apply getQualityScore_nonempty, Hs.
Qed.

(** The scores either scorer can return. *)
Lemma getQualityScore_range (q : JsVal) :
  In (getQualityScore q) [0; 20; 40; 60; 80; 90; 100].
Proof.
  unfold getQualityScore.
  repeat match goal with
         | |- context [if ?b then _ else _] => destruct b
         | |- context [match ?v with JStr _ => _ | _ => _ end] => destruct v
         end; simpl; tauto.
Qed.

(** On the shared tiers the server's score is ten times the provider's. *)
Lemma shared_tier_scale (s : string) :
  onSharedTier s = true ->
  exists x : Z, qualityScore (JStr s) = Normal x /\ getQualityScore (JStr s) = 10 * x.
Proof.
  destruct (String.eqb_spec s "") as [-> | Hs].
  - intros _. exists 0. split; reflexivity.
  - unfold onSharedTier, getQualityScore, qualityScore.
    rewrite (truthy_nonempty s Hs).
    cbn [negb orb typeofString].
    generalize (toUpperCase s); intros u.
    destruct (includes u "4K" || includes u "2160");
      [intros _; exists 10; split; reflexivity |].
    destruct (includes u "1440" || includes u "2K"); [discriminate |].
    destruct (includes u "1080"); [intros _; exists 8; split; reflexivity |].
    destruct (includes u "720"); [intros _; exists 6; split; reflexivity |].
    destruct (includes u "480").
    + intros _. exists 4. split; reflexivity.
    + destruct (includes u "SD"); simpl; [discriminate |].
      intros _. exists 2. split; reflexivity.
Qed.

(** C8, as stated, fails: the provider's scorer has no 1440/2K tier, so
    it ranks "1440p" below "1080p" while the server ranks it above. *)
Lemma scorers_disagree_1440_1080 :
  qualityScore (JStr "1440p") = Normal 2 /\ qualityScore (JStr "1080p") = Normal 8 /\
  getQualityScore (JStr "1440p") = 90 /\ getQualityScore (JStr "1080p") = 80 /\
  ~ sameOrder "1440p" "1080p".
Proof.
  repeat split; try reflexivity.
  intros (x & y & Hx & Hy & Hxy).
  assert (x = 2) as -> by (vm_compute in Hx; congruence).
  assert (y = 8) as -> by (vm_compute in Hy; congruence).
  vm_compute in Hxy. destruct Hxy as [Hxy _].
  specialize (Hxy eq_refl). discriminate.
Qed.

(** C8 (amended): on labels of the tiers both scorers know (4K/2160,
    1080, 720, 480, unmatched, empty) the provider's scorer returns, the
    server's score is ten times the provider's, and the two order every
    pair of such labels alike. *)
Theorem scorers_agree_on_shared_tiers (a b : string) :
  onSharedTier a = true -> onSharedTier b = true ->
  sameOrder a b /\
  (forall x, qualityScore (JStr a) = Normal x -> getQualityScore (JStr a) = 10 * x).
Proof.
  intros Ha Hb.
  destruct (shared_tier_scale a Ha) as (x & Hx & Hxa).
  destruct (shared_tier_scale b Hb) as (y & Hy & Hyb).
  split.
  - exists x, y. repeat split; trivial; lia.
  - intros x' Hx'. rewrite Hx in Hx'. injection Hx' as <-. exact Hxa.
Qed.

Lemma scorers_agree_on_shared_tiers_witness :
  onSharedTier "4K" = true /\ onSharedTier "720p" = true /\ sameOrder "4K" "720p".
Proof.
  split; [reflexivity |]. split; [reflexivity |].
  apply (scorers_agree_on_shared_tiers "4K" "720p"); reflexivity.
Defined.

(** ** Sorting and selection *)

Lemma compareStreams_diff (a b : Stream) : compareStreams a b = scoreOf b - scoreOf a.
Proof.
  unfold compareStreams, scoreOf.
  destruct (Z.eqb_spec (getQualityScore (quality b)) (getQualityScore (quality a)));
    simpl; lia.
Qed.

Lemma sortInsert_perm {A : Type} (cmp : A -> A -> Z) (x : A) (l : list A) :
  Permutation (x :: l) (sortInsert cmp x l).
Proof.
  induction l as [| y l IH]; simpl; [reflexivity |].
  destruct (cmp x y <=? 0); [reflexivity |].
  rewrite perm_swap. now apply perm_skip.
Qed.

Lemma arraySort_perm {A : Type} (cmp : A -> A -> Z) (l : list A) :
  Permutation l (arraySort cmp l).
Proof.
  induction l as [| x l IH]; simpl; [reflexivity |].
  rewrite <- sortInsert_perm. now apply perm_skip.
Qed.

Lemma arraySort_length {A : Type} (cmp : A -> A -> Z) (l : list A) :
  length (arraySort cmp l) = length l.
Proof. symmetry. apply Permutation_length, arraySort_perm. Qed.

Lemma sortInsert_sorted (x : Stream) (l : list Stream) :
  StronglySorted descending l ->
  StronglySorted descending (sortInsert compareStreams x l).
Proof.
  induction 1 as [| y l Hl IH Hy]; simpl.
  - constructor; constructor.
  - rewrite compareStreams_diff.
    destruct (Z.leb_spec (scoreOf y - scoreOf x) 0) as [Hle | Hgt].
    + constructor; [constructor; assumption |].
      constructor; [unfold descending; lia |].
      eapply Forall_impl; [exact Hy |]. unfold descending. intros; simpl in *; lia.
    + constructor; [exact IH |].
      rewrite <- sortInsert_perm.
      constructor; [unfold descending; lia | exact Hy].
Qed.

Lemma arraySort_sorted (l : list Stream) :
  StronglySorted descending (arraySort compareStreams l).
Proof.
  induction l as [| x l IH]; simpl; [constructor |].
  now apply sortInsert_sorted.
Qed.

(** Stability: streams of one score keep their relative order. *)
Lemma sortInsert_stable (k : Z) (x : Stream) (l : list Stream) :
  StronglySorted descending l ->
  List.filter (fun s => scoreOf s =? k) (sortInsert compareStreams x l) =
  List.filter (fun s => scoreOf s =? k) (x :: l).
Proof.
  induction 1 as [| y l Hl IH Hy]; [reflexivity |].
  cbn [sortInsert]. rewrite compareStreams_diff.
  destruct (Z.leb_spec (scoreOf y - scoreOf x) 0) as [Hle | Hgt]; [reflexivity |].
  cbn [List.filter] in *. rewrite IH.
  destruct (Z.eqb_spec (scoreOf y) k) as [Hyk | Hyk];
    destruct (Z.eqb_spec (scoreOf x) k) as [Hxk | Hxk]; try reflexivity.
  lia.
Qed.

Lemma arraySort_stable (k : Z) (l : list Stream) :
  List.filter (fun s => scoreOf s =? k) (arraySort compareStreams l) =
  List.filter (fun s => scoreOf s =? k) l.
Proof.
  induction l as [| x l IH]; [reflexivity |].
  cbn [arraySort]. rewrite sortInsert_stable by apply arraySort_sorted.
  cbn [List.filter]. now rewrite IH.
Qed.

(** A sorted array in which the streams of each score stand in the same
    order is the same array: what a stable sort by score returns does not
    depend on the sorting algorithm. *)
Lemma stable_sorted_unique (l1 l2 : list Stream) :
  StronglySorted descending l1 -> StronglySorted descending l2 ->
  (forall k, List.filter (fun s => scoreOf s =? k) l1 =
             List.filter (fun s => scoreOf s =? k) l2) ->
  l1 = l2.
Proof.
  intros H1. revert l2.
  induction H1 as [| x l1 Hs1 IH Hx]; intros l2 H2 Hk.
  - destruct l2 as [| y l2]; [reflexivity |].
    specialize (Hk (scoreOf y)). cbn [List.filter] in Hk.
    rewrite Z.eqb_refl in Hk. discriminate.
  - destruct H2 as [| y l2 Hs2 Hy].
    + specialize (Hk (scoreOf x)). cbn [List.filter] in Hk.
      rewrite Z.eqb_refl in Hk. discriminate.
    + assert (scoreOf x = scoreOf y) as Hxy.
      { assert (scoreOf x <= scoreOf y) as Hle.
        { pose proof (Hk (scoreOf x)) as Hkx. cbn [List.filter] in Hkx.
          rewrite Z.eqb_refl in Hkx.
          destruct (Z.eqb_spec (scoreOf y) (scoreOf x)) as [-> | _]; [lia |].
          assert (In x (List.filter (fun s => scoreOf s =? scoreOf x) l2)) as Hin
            by (rewrite <- Hkx; left; reflexivity).
          apply List.filter_In in Hin as [Hin _].
          rewrite List.Forall_forall in Hy. specialize (Hy x Hin).
          unfold descending in Hy. lia. }
        assert (scoreOf y <= scoreOf x) as Hge.
        { pose proof (Hk (scoreOf y)) as Hky. cbn [List.filter] in Hky.
          rewrite Z.eqb_refl in Hky.
          destruct (Z.eqb_spec (scoreOf x) (scoreOf y)) as [-> | _]; [lia |].
          assert (In y (List.filter (fun s => scoreOf s =? scoreOf y) l1)) as Hin
            by (rewrite Hky; left; reflexivity).
          apply List.filter_In in Hin as [Hin _].
          rewrite List.Forall_forall in Hx. specialize (Hx y Hin).
          unfold descending in Hx. lia. }
        lia. }
      pose proof (Hk (scoreOf x)) as Hkx. cbn [List.filter] in Hkx.
      rewrite Z.eqb_refl, <- Hxy, Z.eqb_refl in Hkx.
      injection Hkx as -> Hrest. f_equal.
      apply IH; [exact Hs2 |]. intros k.
      destruct (Z.eq_dec k (scoreOf y)) as [-> | Hne]; [exact Hrest |].
      specialize (Hk k). cbn [List.filter] in Hk.
      destruct (Z.eqb_spec (scoreOf y) k) as [Heq | _]; [congruence |].
      exact Hk.
Qed.

Lemma arraySort_unique (l sorted : list Stream) :
  StronglySorted descending sorted ->
  (forall k, List.filter (fun s => scoreOf s =? k) sorted =
             List.filter (fun s => scoreOf s =? k) l) ->
  sorted = arraySort compareStreams l.
Proof.
  intros Hs Hk. apply stable_sorted_unique; [exact Hs | apply arraySort_sorted |].
  intros k. now rewrite Hk, arraySort_stable.
Qed.

(** The head of the sorted array is the first stream of highest score. *)
Lemma arraySort_head (l : list Stream) :
  l <> [] ->
  exists best rest l1 l2,
    arraySort compareStreams l = best :: rest /\
    l = (l1 ++ best :: l2)%list /\
    Forall (fun s => scoreOf s < scoreOf best) l1 /\
    Forall (fun s => scoreOf s <= scoreOf best) l2.
Proof.
  induction l as [| x l IH]; [congruence |]. intros _.
  destruct l as [| y l].
  - exists x, [], [], []. repeat split; constructor.
  - destruct IH as (b & rest & l1 & l2 & Hsort & Hl & H1 & H2); [congruence |].
    cbn [arraySort] in *. rewrite Hsort. cbn [sortInsert].
    rewrite compareStreams_diff.
    destruct (Z.leb_spec (scoreOf b - scoreOf x) 0) as [Hle | Hgt].
    + exists x, (b :: rest), [], (y :: l). repeat split; [constructor |].
      rewrite Hl. apply Forall_app. split.
      * eapply Forall_impl; [exact H1 |]. intros; simpl in *; lia.
      * constructor; [lia |].
        eapply Forall_impl; [exact H2 |]. intros; simpl in *; lia.
    + exists b, (sortInsert compareStreams x rest), (x :: l1), l2.
      repeat split; [now rewrite Hl | | exact H2].
      constructor; [lia | exact H1].
Qed.

Lemma length_zero_iff {A : Type} (l : list A) : (length l =? 0)%nat = true <-> l = [].
Proof. destruct l; simpl; split; congruence. Qed.

Lemma pickBestStream_candidates (streams : list Stream) (pref : JsVal) :
  candidatesOf streams pref <> [] ->
  pickBestStream streams pref =
  (head (arraySort compareStreams (candidatesOf streams pref)),
   if truthy pref then streams else arraySort compareStreams streams).
Proof.
  unfold pickBestStream, candidatesOf. intros Hc.
  destruct streams as [| s0 streams]; [destruct (truthy pref); contradiction |].
  cbn [length Nat.eqb].
  destruct (truthy pref); [| reflexivity].
  destruct (length _ =? 0)%nat eqn:E; [| reflexivity].
  apply length_zero_iff in E. contradiction.
Qed.

Example pick_first_of_ties : fst (pickBestStream [a720; b1080; c1080] JNull) = Some b1080.
Proof. reflexivity. Qed.

Example pick_first_of_ties_swapped :
  fst (pickBestStream [c1080; a720; b1080] JNull) = Some c1080.
Proof. reflexivity. Qed.

Example pick_sorts_callers_array :
  snd (pickBestStream [a720; b1080; d480; c1080] JNull) = [b1080; c1080; a720; d480].
Proof. reflexivity. Qed.

Example pick_preferred_keeps_array :
  pickBestStream [a720; b1080; d480; c1080] (JStr "c") = (Some c1080, [a720; b1080; d480; c1080]).
Proof. reflexivity. Qed.

(** C1, as stated, fails: a preferred provider without any stream gives
    the same [null] as an empty list, with or without a preference. *)
Lemma pickBestStream_no_match_same_as_empty :
  Forall (fun s => strictEq (provider s) (JStr "x") = false) [a720; b1080] /\
  fst (pickBestStream [a720; b1080] (JStr "x")) = None /\
  fst (pickBestStream [] (JStr "x")) = None /\
  fst (pickBestStream [] JNull) = None.
Proof. repeat split; repeat constructor. Qed.

(** C1 (amended): when a preferred provider is given and no stream of
    the list has it, [pickBestStream] returns [null] and leaves the list
    as it is -- the very result it gives on the empty list. *)
Theorem pickBestStream_no_match (streams : list Stream) (pref : JsVal) :
  truthy pref = true ->
  Forall (fun s => strictEq (provider s) pref = false) streams ->
  pickBestStream streams pref = (None, streams) /\
  fst (pickBestStream streams pref) = fst (pickBestStream [] pref).
Proof.
  intros Hp Hall.
  assert (List.filter (fun s => strictEq (provider s) pref) streams = []) as Hf.
  { induction Hall as [| s l Hs _ IH]; [reflexivity |].
    cbn [List.filter]. now rewrite Hs. }
  assert (pickBestStream streams pref = (None, streams)) as Hpick.
  { unfold pickBestStream. rewrite Hp, Hf.
    destruct (length streams =? 0)%nat; reflexivity. }
  split; [exact Hpick |]. now rewrite Hpick.
Qed.

Lemma pickBestStream_no_match_witness :
  pickBestStream [a720; b1080] (JStr "x") = (None, [a720; b1080]).
Proof.
  apply (pickBestStream_no_match [a720; b1080] (JStr "x")).
  - reflexivity.
  - repeat constructor.
Defined.

(** C5: among the candidates (the streams, or those of the preferred
    provider, in their original order) the stream returned is one of
    highest score, and every candidate before it scores strictly less:
    of streams with equal score the first in the original order wins,
    whatever their other fields are. *)
Theorem pickBestStream_tie_break (streams : list Stream) (pref : JsVal) :
  candidatesOf streams pref <> [] ->
  exists best l1 l2,
    fst (pickBestStream streams pref) = Some best /\
    candidatesOf streams pref = (l1 ++ best :: l2)%list /\
    Forall (fun s => scoreOf s < scoreOf best) l1 /\
    Forall (fun s => scoreOf s <= scoreOf best) l2.
Proof.
  intros Hc. rewrite (pickBestStream_candidates _ _ Hc).
  destruct (arraySort_head _ Hc) as (b & rest & l1 & l2 & Hsort & Hl & H1 & H2).
  exists b, l1, l2. cbn [fst]. rewrite Hsort. repeat split; assumption.
Qed.

Lemma pickBestStream_tie_break_witness :
  exists best l1 l2,
    fst (pickBestStream [a720; b1080; c1080] JNull) = Some best /\
    candidatesOf [a720; b1080; c1080] JNull = (l1 ++ best :: l2)%list /\
    Forall (fun s => scoreOf s < scoreOf best) l1 /\
    Forall (fun s => scoreOf s <= scoreOf best) l2.
Proof.
  apply (pickBestStream_tie_break [a720; b1080; c1080] JNull).
  discriminate.
Defined.

(** C9: without a preferred provider the caller's array is left sorted:
    a permutation of the input, descending by score, ties in their
    original order, the result at its head.  With a preferred provider
    the caller's array is left exactly as it was. *)
Theorem pickBestStream_array_effect (streams : list Stream) (pref : JsVal) :
  (truthy pref = false ->
   Permutation streams (snd (pickBestStream streams pref)) /\
   StronglySorted descending (snd (pickBestStream streams pref)) /\
   (forall k, List.filter (fun s => scoreOf s =? k) (snd (pickBestStream streams pref)) =
              List.filter (fun s => scoreOf s =? k) streams) /\
   fst (pickBestStream streams pref) = head (snd (pickBestStream streams pref))) /\
  (truthy pref = true -> snd (pickBestStream streams pref) = streams).
Proof.
  split; intros Hp.
  - assert (pickBestStream streams pref =
            (head (arraySort compareStreams streams), arraySort compareStreams streams)) as ->.
    { unfold pickBestStream. rewrite Hp. destruct streams; reflexivity. }
    cbn [fst snd]. repeat split.
    + apply arraySort_perm.
    + apply arraySort_sorted.
    + intros k. apply arraySort_stable.
  - unfold pickBestStream. rewrite Hp.
    repeat match goal with |- context [if ?b then _ else _] => destruct b end;
      reflexivity.
Qed.

Lemma pickBestStream_array_effect_witness :
  Permutation [a720; b1080; d480; c1080]
    (snd (pickBestStream [a720; b1080; d480; c1080] JNull)) /\
  snd (pickBestStream [a720; b1080; d480; c1080] (JStr "c")) = [a720; b1080; d480; c1080].
Proof.
  split.
  - apply (proj1 (pickBestStream_array_effect [a720; b1080; d480; c1080] JNull)).
    reflexivity.
  - apply (proj2 (pickBestStream_array_effect [a720; b1080; d480; c1080] (JStr "c"))).
    reflexivity.
Defined.

(** ** Fan-out *)

Section FanOut.
Variables (env : Env) (req : Request) (imdbId : option string).

(** What a callback does is independent of the timings written so far. *)
Lemma invokeProvider_cases (t : gmap string Timing) (n : string) :
  invokeProvider env req imdbId t n =
  match callbackError env req imdbId n with
  | Some err => Throw err
  | None =>
      Normal (contribution env req imdbId n,
              match timingOf env req imdbId n with
              | Some v => <[n := v]> t
              | None => t
              end)
  end.
Proof.
  unfold callbackError, contribution, timingOf, invokeProvider.
  destruct (getProvider env n) as [prov |]; [| now rewrite lookup_empty].
  destruct (enabled prov); cbn [negb]; [| now rewrite lookup_empty].
  destruct (fetch env prov req imdbId) as [r ms | e].
  - now rewrite lookup_insert_eq.
  - destruct (messageOf e); [now rewrite lookup_insert_eq | reflexivity].
Qed.

Lemma fanOut_cons (n : string) (rest : list string) (t : gmap string Timing) :
  fanOut env req imdbId (n :: rest) t =
  match callbackError env req imdbId n with
  | Some err => Throw err
  | None =>
      match fanOut env req imdbId rest
              (match timingOf env req imdbId n with
               | Some v => <[n := v]> t
               | None => t
               end) with
      | Throw err => Throw err
      | Normal (results, timings) =>
          Normal (contribution env req imdbId n :: results, timings)
      end
  end.
Proof.
  cbn [fanOut]. rewrite invokeProvider_cases.
  destruct (callbackError env req imdbId n); reflexivity.
Qed.

(** A batch that resolves holds every provider's contribution, in
    selection order, no callback has rejected, and the timings are those
    the callbacks wrote. *)
Lemma fanOut_Normal (names : list string) (t : gmap string Timing)
    (results : list (list Stream)) (timings : gmap string Timing) :
  fanOut env req imdbId names t = Normal (results, timings) ->
  results = List.map (contribution env req imdbId) names /\
  Forall (fun n => callbackError env req imdbId n = None) names /\
  (forall k,
      timings !! k =
      if decide (k ∈ names)
      then match timingOf env req imdbId k with Some v => Some v | None => t !! k end
      else t !! k).
Proof.
  revert t results timings.
  induction names as [| n rest IH]; intros t results timings H.
  - cbn [fanOut] in H. injection H as <- <-.
    split; [reflexivity |]. split; [constructor |].
    intros k. case_decide as Hk; [| reflexivity]. now apply elem_of_nil in Hk.
  - rewrite fanOut_cons in H.
    destruct (callbackError env req imdbId n) eqn:Ecb; [discriminate |].
    destruct (fanOut env req imdbId rest _) as [[rs t2] | err] eqn:Erest;
      [| discriminate].
    injection H as <- <-.
    destruct (IH _ _ _ Erest) as (Hrs & Hall & Hlook).
    split; [cbn [List.map]; now rewrite Hrs |].
    split; [now constructor |].
    intros k. rewrite Hlook.
    destruct (decide (k = n)) as [-> | Hne].
    + rewrite (decide_True (P := n ∈ n :: rest)) by apply list_elem_of_here.
      destruct (timingOf env req imdbId n) as [v |] eqn:Ev.
      * rewrite lookup_insert_eq. now case_decide.
      * now case_decide.
    + assert (match timingOf env req imdbId n with
              | Some v => <[n := v]> t
              | None => t
              end !! k = t !! k) as ->.
      { destruct (timingOf env req imdbId n); [| reflexivity].
        now apply lookup_insert_ne. }
      destruct (decide (k ∈ rest)) as [Hin | Hnin].
      * rewrite decide_True; [reflexivity |]. now apply list_elem_of_further.
      * rewrite decide_False; [reflexivity |].
        intros [? | ?]%elem_of_cons; contradiction.
Qed.

(** The batch resolves when no callback rejects. *)
Lemma fanOut_resolves (names : list string) (t : gmap string Timing) :
  Forall (fun n => callbackError env req imdbId n = None) names ->
  exists results timings, fanOut env req imdbId names t = Normal (results, timings).
Proof.
  intros Hall. revert t. induction Hall as [| n rest Hn _ IH]; intros t.
  - now exists [], t.
  - rewrite fanOut_cons, Hn.
    destruct (IH (match timingOf env req imdbId n with
                  | Some v => <[n := v]> t
                  | None => t
                  end)) as (rs & t2 & ->).
    now exists (contribution env req imdbId n :: rs), t2.
Qed.

(** The batch rejects with the error of a callback. *)
Lemma fanOut_Throw (names : list string) (t : gmap string Timing) (err : JsError) :
  fanOut env req imdbId names t = Throw err ->
  exists n, n ∈ names /\ callbackError env req imdbId n = Some err.
Proof.
  revert t. induction names as [| n rest IH]; intros t H; [discriminate |].
  rewrite fanOut_cons in H.
  destruct (callbackError env req imdbId n) as [e |] eqn:Ecb.
  - injection H as ->. exists n. split; [apply list_elem_of_here | exact Ecb].
  - destruct (fanOut env req imdbId rest _) as [[rs t2] | e] eqn:Erest; [discriminate |].
    injection H as ->. destruct (IH _ Erest) as (k & Hk & He).
    exists k. split; [now apply list_elem_of_further | exact He].
Qed.

Lemma fanOut_rejects (names : list string) (t : gmap string Timing) (n : string)
    (err : JsError) :
  n ∈ names -> callbackError env req imdbId n = Some err ->
  exists err', fanOut env req imdbId names t = Throw err'.
Proof.
  intros Hin Hcb.
  destruct (fanOut env req imdbId names t) as [[rs t2] | e] eqn:E; [| eauto].
  destruct (fanOut_Normal _ _ _ _ E) as (_ & Hall & _).
  rewrite Forall_forall in Hall. rewrite (Hall n Hin) in Hcb. discriminate.
Qed.

(** The completion order of the calls does not show in the timings. *)
Lemma fanOut_order (names names' : list string) (t : gmap string Timing)
    (results : list (list Stream)) (timings : gmap string Timing) :
  Permutation names names' ->
  fanOut env req imdbId names t = Normal (results, timings) ->
  exists results', fanOut env req imdbId names' t = Normal (results', timings).
Proof.
  intros Hperm H. destruct (fanOut_Normal _ _ _ _ H) as (_ & Hall & Hlook).
  rewrite Hperm in Hall.
  destruct (fanOut_resolves names' t Hall) as (rs' & t' & H').
  exists rs'. rewrite H'. do 2 f_equal.
  destruct (fanOut_Normal _ _ _ _ H') as (_ & _ & Hlook').
  apply map_eq. intros k. rewrite Hlook, Hlook'.
  destruct (decide (k ∈ names)) as [Hin | Hnin].
  - rewrite decide_True; [reflexivity |]. now rewrite <- Hperm.
  - rewrite decide_False; [reflexivity |]. now rewrite <- Hperm.
Qed.

Lemma rejected_contribution (n : string) (prov : Provider) (e : JsError) :
  getProvider env n = Some prov -> enabled prov = true ->
  fetch env prov req imdbId = Rejected (ThrownError e) ->
  contribution env req imdbId n = [] /\ timingOf env req imdbId n = Some TimingNull.
Proof.
  intros Hp He Hf. unfold contribution, timingOf, invokeProvider.
  rewrite Hp, He, Hf. cbn [negb messageOf]. split; [reflexivity |].
  apply lookup_insert_eq.
Qed.

Lemma resolved_contribution (n : string) (prov : Provider) (r : list Stream) (ms : Z) :
  getProvider env n = Some prov -> enabled prov = true ->
  fetch env prov req imdbId = Resolved r ms ->
  contribution env req imdbId n = r /\ timingOf env req imdbId n = Some (TimingMs ms).
Proof.
  intros Hp He Hf. unfold contribution, timingOf, invokeProvider.
  rewrite Hp, He, Hf. cbn [negb]. split; [reflexivity |].
  apply lookup_insert_eq.
Qed.

(** A rejection with [undefined] or [null] makes the callback reject. *)
Lemma nullish_callback (n : string) (prov : Provider) (e : Thrown) (err : JsError) :
  getProvider env n = Some prov -> enabled prov = true ->
  fetch env prov req imdbId = Rejected e -> messageOf e = Throw err ->
  callbackError env req imdbId n = Some err.
Proof.
  intros Hp He Hf Hm. unfold callbackError, invokeProvider.
  now rewrite Hp, He, Hf, Hm.
Qed.

End FanOut.

(** ** The routes *)

Lemma aggregate_normal_mode (env : Env) (req : Request) (imdbId : option string)
    (results : list (list Stream)) (timings : gmap string Timing) :
  validType (params_type req) = true ->
  resolveImdbId env (tmdbTypeOf (params_type req)) (params_tmdbId req) = Normal imdbId ->
  fanOut env req imdbId (selectedProvidersOf env) ∅ = Normal (results, timings) ->
  getAggregateStreams env req =
  if isDirect req then
    directResponse req
      (fst (pickBestStream (aggregateStreamsOf env req results) (preferredProviderOf req)))
      "No suitable stream found" (fun b => toStr (provider b))
  else
    Json 200 (StreamsBody None (params_tmdbId req) imdbId
                (Z.of_nat (length (aggregateStreamsOf env req results)))
                timings (aggregateStreamsOf env req results)).
Proof.
  intros Hty Hres Hfan. unfold getAggregateStreams, aggregateStreamsOf.
  now rewrite Hty, Hres, Hfan.
Qed.

Lemma aggregate_batch_rejected (env : Env) (req : Request) (imdbId : option string)
    (err : JsError) :
  validType (params_type req) = true ->
  resolveImdbId env (tmdbTypeOf (params_type req)) (params_tmdbId req) = Normal imdbId ->
  fanOut env req imdbId (selectedProvidersOf env) ∅ = Throw err ->
  getAggregateStreams env req = Json 500 (ErrorBody "INTERNAL_ERROR" (Some (message err))).
Proof.
  intros Hty Hres Hfan. unfold getAggregateStreams. now rewrite Hty, Hres, Hfan.
Qed.

Lemma provider_normal_mode (env : Env) (req : Request) (imdbId : option string)
    (prov : Provider) (r : list Stream) (ms : Z) :
  validType (params_type req) = true ->
  getProvider env (params_provider req) = Some prov -> enabled prov = true ->
  resolveImdbId env (tmdbTypeOf (params_type req)) (params_tmdbId req) = Normal imdbId ->
  fetch env prov req imdbId = Resolved r ms ->
  getProviderStreams env req =
  if isDirect req then
    directResponse req
      (fst (pickBestStream (providerStreamsOf env req prov r) (JStr (params_provider req))))
      ("No stream from " +:+ params_provider req) (fun _ => params_provider req)
  else
    Json 200 (StreamsBody (Some (name prov)) (params_tmdbId req) imdbId
                (Z.of_nat (length (providerStreamsOf env req prov r)))
                {[ name prov := TimingMs ms ]}
                (providerStreamsOf env req prov r)).
Proof.
  intros Hty Hp He Hres Hf. unfold getProviderStreams, providerStreamsOf.
  rewrite Hty, Hp, He, Hres, Hf. reflexivity.
Qed.

Example aggregate_one_of_three_rejects :
  responseStreams
    (getAggregateStreams (exampleEnv false ["a"; "b"; "c"] oneRejects)
       (exampleRequest "" None)) = [a720; c1080].
Proof. reflexivity. Qed.

Example aggregate_end_to_end :
  getAggregateStreams
    (exampleEnv false ["a"; "b"] (fun n => if String.eqb n "a" then Resolved [a720] 5
                                           else Resolved [b1080] 9))
    (exampleRequest "" (Some "")) =
  Text 200 ("# b " +:+ bullet +:+ " 1080p " +:+ bullet +:+ " 603" +:+ newline +:+ "u2").
Proof. reflexivity. Qed.

(** What the per-provider [try]/[catch] does achieve: when every
    rejection is with an object, as an [Error] is, the batch resolves and
    holds each selected provider's own streams in selection order; a
    provider whose fetch rejects adds the empty list and has [null] as
    its timing entry, one whose fetch resolves adds what it returned; in
    list mode the response is the 200 with these streams (filtered,
    relayed) and timings, and in no mode is it a 500. *)
Lemma aggregate_isolates_error_rejections (env : Env) (req : Request)
    (imdbId : option string) :
  validType (params_type req) = true ->
  resolveImdbId env (tmdbTypeOf (params_type req)) (params_tmdbId req) = Normal imdbId ->
  Forall (fun n => callbackError env req imdbId n = None) (selectedProvidersOf env) ->
  exists results timings,
    fanOut env req imdbId (selectedProvidersOf env) ∅ = Normal (results, timings) /\
    results = List.map (contribution env req imdbId) (selectedProvidersOf env) /\
    (forall (n : string) (prov : Provider) (e : JsError),
        n ∈ selectedProvidersOf env ->
        getProvider env n = Some prov -> enabled prov = true ->
        fetch env prov req imdbId = Rejected (ThrownError e) ->
        contribution env req imdbId n = [] /\ timings !! n = Some TimingNull) /\
    (forall (n : string) (prov : Provider) (r : list Stream) (ms : Z),
        n ∈ selectedProvidersOf env ->
        getProvider env n = Some prov -> enabled prov = true ->
        fetch env prov req imdbId = Resolved r ms ->
        contribution env req imdbId n = r /\ timings !! n = Some (TimingMs ms)) /\
    (isDirect req = false ->
     getAggregateStreams env req =
     Json 200 (StreamsBody None (params_tmdbId req) imdbId
                 (Z.of_nat (length (aggregateStreamsOf env req results)))
                 timings (aggregateStreamsOf env req results))) /\
    (forall body, getAggregateStreams env req <> Json 500 body).
Proof.
  intros Hty Hres Hall.
  destruct (fanOut_resolves env req imdbId _ ∅ Hall) as (results & timings & Hfan).
  destruct (fanOut_Normal env req imdbId _ _ _ _ Hfan) as (Hrs & _ & Hlook).
  exists results, timings. split; [exact Hfan |]. split; [exact Hrs |].
  split; [| split; [| split]].
  - intros n prov e Hin Hp He Hf.
    destruct (rejected_contribution env req imdbId n prov e Hp He Hf) as [Hc Ht].
    split; [exact Hc |]. rewrite Hlook, decide_True by exact Hin. now rewrite Ht.
  - intros n prov r ms Hin Hp He Hf.
    destruct (resolved_contribution env req imdbId n prov r ms Hp He Hf) as [Hc Ht].
    split; [exact Hc |]. rewrite Hlook, decide_True by exact Hin. now rewrite Ht.
  - intros Hd.
    rewrite (aggregate_normal_mode env req imdbId results timings Hty Hres Hfan), Hd.
    reflexivity.
  - intros body.
    rewrite (aggregate_normal_mode env req imdbId results timings Hty Hres Hfan).
    destruct (isDirect req); [| discriminate].
    unfold directResponse.
    repeat match goal with
           | |- context [match ?x with Some _ => _ | None => _ end] => destruct x
           | |- context [if ?b then _ else _] => destruct b
           end; discriminate.
Qed.

Lemma aggregate_isolates_error_rejections_witness :
  exists results timings,
    fanOut (exampleEnv false ["a"; "b"; "c"] oneRejects) (exampleRequest "" None)
      (Some "tt0133093") ["a"; "b"; "c"] ∅ = Normal (results, timings) /\
    results = [[a720]; []; [c1080]] /\
    timings !! "b" = Some TimingNull.
Proof.
  destruct (aggregate_isolates_error_rejections
              (exampleEnv false ["a"; "b"; "c"] oneRejects) (exampleRequest "" None)
              (Some "tt0133093") eq_refl eq_refl)
    as (results & timings & Hfan & Hrs & Hrej & _).
  - repeat constructor.
  - exists results, timings. split; [exact Hfan |]. split; [exact Hrs |].
    apply (Hrej "b" (mkProvider "b" true) (mkError "timeout of 10000ms exceeded")).
    + apply list_elem_of_further, list_elem_of_here.
    + reflexivity.
    + reflexivity.
    + reflexivity.
Defined.

(** Where it falls short: a selected, enabled provider whose fetch
    rejects with [undefined] or [null] fails the whole request. *)
Lemma nullish_rejection_fails_request (env : Env) (req : Request)
    (imdbId : option string) (n : string) (prov : Provider) (e : Thrown)
    (err : JsError) :
  validType (params_type req) = true ->
  resolveImdbId env (tmdbTypeOf (params_type req)) (params_tmdbId req) = Normal imdbId ->
  n ∈ selectedProvidersOf env ->
  getProvider env n = Some prov -> enabled prov = true ->
  fetch env prov req imdbId = Rejected e -> messageOf e = Throw err ->
  exists err',
    getAggregateStreams env req =
    Json 500 (ErrorBody "INTERNAL_ERROR" (Some (message err'))).
Proof.
  intros Hty Hres Hin Hp He Hf Hm.
  pose proof (nullish_callback env req imdbId n prov e err Hp He Hf Hm) as Hcb.
  destruct (fanOut_rejects env req imdbId _ ∅ n err Hin Hcb) as (err' & Hfan).
  exists err'. now apply (aggregate_batch_rejected env req imdbId).
Qed.

(** C4, as the code has it: with three providers of which a and c
    answer and b rejects without a reason ([undefined]), the [catch]
    block of b's callback throws on [e.message] before it writes the
    [null] timing, the batch rejects and the request is answered 500,
    without the streams of a and c; had b rejected with an [Error], the
    answer would be the 200 with those streams and a [null] timing for
    b. *)
Theorem aggregate_undefined_rejection_500 :
  getAggregateStreams (exampleEnv false ["a"; "b"; "c"] oneRejectsUndefined)
    (exampleRequest "" None) =
    Json 500 (ErrorBody "INTERNAL_ERROR"
                (Some "Cannot read properties of undefined (reading 'message')")) /\
  getAggregateStreams (exampleEnv false ["a"; "b"; "c"] oneRejects)
    (exampleRequest "" None) =
    Json 200 (StreamsBody None "603" (Some "tt0133093") 2
                (<["c" := TimingMs 30]> (<["b" := TimingNull]> (<["a" := TimingMs 12]> ∅)))
                [a720; c1080]).
Proof. split; reflexivity. Qed.

Lemma relayStage_no_headers (env : Env) (req : Request) (streams : list Stream) :
  config_enableProxy env = true ->
  Forall (fun s => headers s = None) (relayStage env req streams).
Proof.
  intros Hproxy. unfold relayStage. rewrite Hproxy.
  apply List.Forall_forall. intros s Hs.
  apply List.in_map_iff in Hs as (s0 & <- & _). reflexivity.
Qed.

Lemma directResponse_no_streams (req : Request) (best : option Stream)
    (notFound : string) (who : Stream -> string) :
  responseStreams (directResponse req best notFound who) = [].
Proof.
  unfold directResponse. destruct best as [b |]; [| reflexivity].
  destruct (truthy (url b)); [| reflexivity].
  destruct (isRedirect req); reflexivity.
Qed.

Example relay_drops_supplied_headers :
  headers c1080 <> None /\
  List.map headers
    (responseStreams
       (getAggregateStreams (exampleEnv true ["a"; "b"; "c"] oneRejects)
          (exampleRequest "" None))) = [None; None] /\
  List.map url
    (responseStreams
       (getProviderStreams (exampleEnv true [] oneRejects) (exampleRequest "c" None))) =
  [JStr "( {req.protocol}:// ){req.get('host')}/proxy?url=u3"].
Proof. repeat split; discriminate. Qed.

(** C7: with the relay enabled, no stream in a response of either
    [/api/streams] route has a [headers] field, whatever the providers
    and the relay rewriter produced. *)
Theorem relay_mode_strips_headers (env : Env) (req : Request) :
  config_enableProxy env = true ->
  Forall (fun s => headers s = None) (responseStreams (getAggregateStreams env req)) /\
  Forall (fun s => headers s = None) (responseStreams (getProviderStreams env req)).
Proof.
  intros Hproxy. split.
  - unfold getAggregateStreams.
    destruct (validType (params_type req)); [| constructor]. cbn [negb].
    destruct (resolveImdbId env _ _) as [imdbId | e]; [| constructor].
    destruct (fanOut env req imdbId (selectedProvidersOf env) ∅)
      as [[results timings] | e]; [| constructor].
    destruct (isDirect req).
    + rewrite directResponse_no_streams. constructor.
    + cbn [responseStreams]. now apply relayStage_no_headers.
  - unfold getProviderStreams.
    destruct (validType (params_type req)); [| constructor]. cbn [negb].
    destruct (getProvider env (params_provider req)) as [prov |]; [| constructor].
    destruct (enabled prov); [| constructor]. cbn [negb].
    destruct (resolveImdbId env _ _) as [imdbId | e]; [| constructor].
    destruct (fetch env prov req imdbId) as [r ms | e];
      [| unfold outerCatch; destruct (messageOf e); constructor].
    destruct (isDirect req).
    + rewrite directResponse_no_streams. constructor.
    + cbn [responseStreams]. now apply relayStage_no_headers.
Qed.

Lemma relay_mode_strips_headers_witness :
  Forall (fun s => headers s = None)
    (responseStreams
       (getAggregateStreams (exampleEnv true ["a"; "b"; "c"] oneRejects)
          (exampleRequest "" None))) /\
  Forall (fun s => headers s = None)
    (responseStreams
       (getProviderStreams (exampleEnv true ["a"; "b"; "c"] oneRejects)
          (exampleRequest "c" None))).
Proof.
  split.
  - apply (proj1 (relay_mode_strips_headers (exampleEnv true ["a"; "b"; "c"] oneRejects)
                    (exampleRequest "" None) eq_refl)).
  - apply (proj2 (relay_mode_strips_headers (exampleEnv true ["a"; "b"; "c"] oneRejects)
                    (exampleRequest "c" None) eq_refl)).
Defined.

(** What direct mode answers for a given selection. *)
Lemma directResponse_cases (req : Request) (best : option Stream)
    (notFound : string) (who : Stream -> string) :
  ((best = None \/ exists b, best = Some b /\ truthy (url b) = false) ->
   directResponse req best notFound who = Text 404 notFound) /\
  (forall b, best = Some b -> truthy (url b) = true ->
     directResponse req best notFound who =
     if isRedirect req then Redirect 302 (url b)
     else Text 200 (commentLine (who b) b (params_tmdbId req) +:+ toStr (url b))).
Proof.
  unfold directResponse. split.
  - intros [-> | (b & -> & Hb)]; [reflexivity |]. now rewrite Hb.
  - intros b -> Hb. now rewrite Hb.
Qed.

Example direct_no_url_404 :
  getAggregateStreams (exampleEnv false ["d"] noUrl) (exampleRequest "" (Some "redirect")) =
    Text 404 "No suitable stream found" /\
  getProviderStreams (exampleEnv false [] noUrl) (exampleRequest "d" (Some "")) =
    Text 404 "No stream from d".
Proof. split; reflexivity. Qed.

Example direct_redirect :
  getProviderStreams (exampleEnv false [] oneRejects) (exampleRequest "c" (Some "redirect")) =
    Redirect 302 (JStr "u3").
Proof. reflexivity. Qed.

(** A redirect or a 200 text of the direct-mode block comes from a
    selected stream with a truthy [url]. *)
Lemma directResponse_served (req : Request) (best : option Stream)
    (notFound : string) (who : Stream -> string) :
  (forall st loc, directResponse req best notFound who = Redirect st loc ->
     truthy loc = true /\ exists b, best = Some b /\ loc = url b) /\
  (forall body, directResponse req best notFound who = Text 200 body ->
     exists b, best = Some b /\ truthy (url b) = true).
Proof.
  unfold directResponse. destruct best as [b |].
  - destruct (truthy (url b)) eqn:Hu; cbn [negb].
    + destruct (isRedirect req); split; intros; try discriminate.
      * injection H as _ <-. split; [exact Hu | now exists b].
      * now exists b.
    + split; intros; discriminate.
  - split; intros; discriminate.
Qed.

Lemma routes_serve_truthy_url (env : Env) (req : Request) :
  (forall st loc, getAggregateStreams env req = Redirect st loc -> truthy loc = true) /\
  (forall st loc, getProviderStreams env req = Redirect st loc -> truthy loc = true).
Proof.
  split; intros st loc.
  - unfold getAggregateStreams.
    destruct (negb (validType (params_type req))); [discriminate |].
    destruct (resolveImdbId env _ _) as [imdbId | e]; [| discriminate].
    destruct (fanOut env req imdbId (selectedProvidersOf env) ∅)
      as [[results timings] | e]; [| discriminate].
    destruct (isDirect req); [| discriminate].
    intros H. now apply (proj1 (directResponse_served _ _ _ _)) in H as [H _].
  - unfold getProviderStreams.
    destruct (negb (validType (params_type req))); [discriminate |].
    destruct (getProvider env (params_provider req)) as [prov |]; [| discriminate].
    destruct (negb (enabled prov)); [discriminate |].
    destruct (resolveImdbId env _ _) as [imdbId | e]; [| discriminate].
    destruct (fetch env prov req imdbId) as [r ms | e];
      [| unfold outerCatch; destruct (messageOf e); discriminate].
    destruct (isDirect req); [| discriminate].
    intros H. now apply (proj1 (directResponse_served _ _ _ _)) in H as [H _].
Qed.

(** C10: in direct mode each route, once it has its streams in hand,
    answers 404 when no stream is selected and also when the selected
    stream's [url] is missing or empty (falsy); a redirect or a 200 text
    is given only for a selected stream whose [url] is truthy, and it
    carries that [url]; and on no path at all does a route redirect to a
    falsy [url]. *)
Theorem direct_mode_needs_url (env : Env) (req : Request) (imdbId : option string) :
  isDirect req = true ->
  validType (params_type req) = true ->
  resolveImdbId env (tmdbTypeOf (params_type req)) (params_tmdbId req) = Normal imdbId ->
  (forall (results : list (list Stream)) (timings : gmap string Timing),
      fanOut env req imdbId (selectedProvidersOf env) ∅ = Normal (results, timings) ->
      let best :=
        fst (pickBestStream (aggregateStreamsOf env req results)
               (preferredProviderOf req)) in
      ((best = None \/ exists b, best = Some b /\ truthy (url b) = false) ->
       getAggregateStreams env req = Text 404 "No suitable stream found") /\
      (forall b, best = Some b -> truthy (url b) = true ->
         getAggregateStreams env req =
         if isRedirect req then Redirect 302 (url b)
         else Text 200 (commentLine (toStr (provider b)) b (params_tmdbId req)
                          +:+ toStr (url b)))) /\
  (forall (prov : Provider) (r : list Stream) (ms : Z),
      getProvider env (params_provider req) = Some prov -> enabled prov = true ->
      fetch env prov req imdbId = Resolved r ms ->
      let best :=
        fst (pickBestStream (providerStreamsOf env req prov r)
               (JStr (params_provider req))) in
      ((best = None \/ exists b, best = Some b /\ truthy (url b) = false) ->
       getProviderStreams env req = Text 404 ("No stream from " +:+ params_provider req)) /\
      (forall b, best = Some b -> truthy (url b) = true ->
         getProviderStreams env req =
         if isRedirect req then Redirect 302 (url b)
         else Text 200 (commentLine (params_provider req) b (params_tmdbId req)
                          +:+ toStr (url b)))) /\
  (forall st loc, getAggregateStreams env req = Redirect st loc -> truthy loc = true) /\
  (forall st loc, getProviderStreams env req = Redirect st loc -> truthy loc = true).
Proof.
  intros Hd Hty Hres. split; [| split; [| apply routes_serve_truthy_url]].
  - intros results timings Hfan.
    rewrite (aggregate_normal_mode env req imdbId results timings Hty Hres Hfan), Hd.
    apply directResponse_cases.
  - intros prov r ms Hp He Hf.
    rewrite (provider_normal_mode env req imdbId prov r ms Hty Hp He Hres Hf), Hd.
    apply (directResponse_cases req _ _ (fun _ => params_provider req)).
Qed.

Lemma direct_mode_needs_url_witness :
  getAggregateStreams (exampleEnv false ["d"] noUrl) (exampleRequest "" (Some "redirect")) =
    Text 404 "No suitable stream found".
Proof.
  pose proof (direct_mode_needs_url (exampleEnv false ["d"] noUrl)
                (exampleRequest "" (Some "redirect")) (Some "tt0133093")
                eq_refl eq_refl eq_refl) as [H _].
  destruct (H [[d480]] (<["d" := TimingMs 7]> ∅) eq_refl) as [H404 _].
  apply H404. right. exists d480. split; reflexivity.
Defined.

(** ** Login attempt governor *)

Lemma gtb_false (a b : Z) : a <= b -> (a >? b) = false.
Proof. intros H. rewrite Z.gtb_ltb. now apply Z.ltb_ge. Qed.

Lemma gtb_true (a b : Z) : b < a -> (a >? b) = true.
Proof. intros H. rewrite Z.gtb_ltb. now apply Z.ltb_lt. Qed.

(** A failure that falls into the entry's window, or under its lock,
    counts on. *)
Lemma recordLoginFailure_counts_on (ip : string) (now : Z)
    (m : gmap string Governor.Entry) (e : Governor.Entry) :
  m !! ip = Some e ->
  now - Governor.first e <= Governor.WINDOW_MS \/ now <= Governor.lockedUntil e ->
  fst (Governor.recordLoginFailure ip now m) =
  {| Governor.count := Governor.count e + 1;
     Governor.first := Governor.first e;
     Governor.last := now;
     Governor.lockedUntil :=
       if Governor.count e + 1 >? Governor.MAX_ATTEMPTS_WINDOW
       then now + Governor.lockMsOf (Governor.count e + 1 - Governor.MAX_ATTEMPTS_WINDOW)
       else Governor.lockedUntil e |}.
Proof.
  intros Hm Hin. unfold Governor.recordLoginFailure. rewrite Hm.
  assert ((now - Governor.first e >? Governor.WINDOW_MS)
          && (now >? Governor.lockedUntil e) = false) as ->.
  { apply andb_false_iff. destruct Hin; [left | right]; now apply gtb_false. }
  cbn [fst Governor.count Governor.first Governor.last Governor.lockedUntil].
  destruct (Governor.count e + 1 >? Governor.MAX_ATTEMPTS_WINDOW); reflexivity.
Qed.

(** A failure after the window, the lock deadline passed, starts anew. *)
Lemma recordLoginFailure_starts_anew (ip : string) (now : Z)
    (m : gmap string Governor.Entry) (e : Governor.Entry) :
  m !! ip = Some e ->
  now - Governor.first e > Governor.WINDOW_MS -> now > Governor.lockedUntil e ->
  fst (Governor.recordLoginFailure ip now m) =
  {| Governor.count := 1; Governor.first := now; Governor.last := now;
     Governor.lockedUntil := Governor.lockedUntil e |}.
Proof.
  intros Hm Hw Hl. unfold Governor.recordLoginFailure. rewrite Hm.
  rewrite (gtb_true (now - Governor.first e) Governor.WINDOW_MS) by lia.
  rewrite (gtb_true now (Governor.lockedUntil e)) by lia.
  reflexivity.
Qed.

Lemma recordLoginFailure_stored (ip : string) (now : Z) (m : gmap string Governor.Entry) :
  snd (Governor.recordLoginFailure ip now m) =
  <[ip := fst (Governor.recordLoginFailure ip now m)]> m.
Proof.
  unfold Governor.recordLoginFailure. destruct (m !! ip); reflexivity.
Qed.

Example window_expiry_resets :
  Governor.recordFailures "10.0.0.7" [0; 1000; 700000] ∅ !! "10.0.0.7" =
  Some {| Governor.count := 1; Governor.first := 700000;
          Governor.last := 700000; Governor.lockedUntil := 0 |}.
Proof. reflexivity. Qed.

Example seventh_failure_doubles :
  Governor.recordFailures "10.0.0.7" [0; 1; 2; 3; 4; 5; 400000] ∅ !! "10.0.0.7" =
  Some {| Governor.count := 7; Governor.first := 0;
          Governor.last := 400000; Governor.lockedUntil := 400000 + 2 * 300000 |}.
Proof. reflexivity. Qed.

Example expired_window_under_lock_still_counts :
  Governor.recordFailures "10.0.0.7" [0; 1; 2; 3; 4; 590000; 601000] ∅ !! "10.0.0.7" =
  Some {| Governor.count := 7; Governor.first := 0;
          Governor.last := 601000; Governor.lockedUntil := 601000 + 2 * 300000 |}.
Proof. reflexivity. Qed.

(** C6, as stated, fails at the instant a lock ends: six failures, the
    sixth at 400000, lock the identity until 700000; at 700000 the window
    has expired and the lock is no longer running -- [canAttempt] would
    allow an attempt -- yet a failure recorded at that instant does not
    restart the window: it makes the count 7 and doubles the lock. *)
Lemma recordLoginFailure_at_lock_end :
  Governor.recordFailures "10.0.0.7" [0; 1; 2; 3; 4; 400000] ∅ !! "10.0.0.7" =
    Some {| Governor.count := 6; Governor.first := 0;
            Governor.last := 400000; Governor.lockedUntil := 700000 |} /\
  700000 - 0 > Governor.WINDOW_MS /\
  lockActive {| Governor.count := 6; Governor.first := 0;
                Governor.last := 400000; Governor.lockedUntil := 700000 |} 700000 = false /\
  Governor.allowed
    (fst (Governor.canAttempt "10.0.0.7" 700000
            (Governor.recordFailures "10.0.0.7" [0; 1; 2; 3; 4; 400000] ∅))) = true /\
  fst (Governor.recordLoginFailure "10.0.0.7" 700000
         (Governor.recordFailures "10.0.0.7" [0; 1; 2; 3; 4; 400000] ∅)) =
    {| Governor.count := 7; Governor.first := 0;
       Governor.last := 700000; Governor.lockedUntil := 700000 + 600000 |}.
Proof. repeat split; reflexivity. Qed.

(** C6 (amended): for an identity with an entry, a failure recorded more
    than [WINDOW_MS] after the entry's [first] and strictly after its
    [lockedUntil] ([now > lockedUntil]) restarts the window with
    [count = 1] and [first = now]; every other failure -- within the
    window, under a running lock, or at the very instant
    [now = lockedUntil] -- increments [count] and keeps [first].  Either
    way [last] becomes [now] and the entry is stored. *)
Theorem recordLoginFailure_window (ip : string) (now : Z)
    (m : gmap string Governor.Entry) (e : Governor.Entry) :
  m !! ip = Some e ->
  (now - Governor.first e > Governor.WINDOW_MS -> now > Governor.lockedUntil e ->
   Governor.count (fst (Governor.recordLoginFailure ip now m)) = 1 /\
   Governor.first (fst (Governor.recordLoginFailure ip now m)) = now) /\
  (now - Governor.first e <= Governor.WINDOW_MS \/ now <= Governor.lockedUntil e ->
   Governor.count (fst (Governor.recordLoginFailure ip now m)) = Governor.count e + 1 /\
   Governor.first (fst (Governor.recordLoginFailure ip now m)) = Governor.first e) /\
  Governor.last (fst (Governor.recordLoginFailure ip now m)) = now /\
  snd (Governor.recordLoginFailure ip now m) !! ip =
    Some (fst (Governor.recordLoginFailure ip now m)).
Proof.
  intros Hm. split; [| split; [| split]].
  - intros Hw Hl. rewrite (recordLoginFailure_starts_anew ip now m e Hm Hw Hl).
    split; reflexivity.
  - intros Hin. rewrite (recordLoginFailure_counts_on ip now m e Hm Hin).
    split; reflexivity.
  - destruct (Z_le_gt_dec (now - Governor.first e) Governor.WINDOW_MS) as [Hw | Hw].
    + rewrite (recordLoginFailure_counts_on ip now m e Hm (or_introl Hw)). reflexivity.
    + destruct (Z_le_gt_dec now (Governor.lockedUntil e)) as [Hl | Hl].
      * rewrite (recordLoginFailure_counts_on ip now m e Hm (or_intror Hl)). reflexivity.
      * rewrite (recordLoginFailure_starts_anew ip now m e Hm Hw Hl). reflexivity.
  - rewrite recordLoginFailure_stored. apply lookup_insert_eq.
Qed.

Lemma recordLoginFailure_window_witness :
  Governor.count
    (fst (Governor.recordLoginFailure "10.0.0.7" 700000
            (Governor.recordFailures "10.0.0.7" [0; 1000] ∅))) = 1 /\
  Governor.first
    (fst (Governor.recordLoginFailure "10.0.0.7" 700000
            (Governor.recordFailures "10.0.0.7" [0; 1000] ∅))) = 700000.
Proof.
  pose proof (recordLoginFailure_window "10.0.0.7" 700000
                (Governor.recordFailures "10.0.0.7" [0; 1000] ∅)
                {| Governor.count := 2; Governor.first := 0;
                   Governor.last := 1000; Governor.lockedUntil := 0 |}
                eq_refl) as [Hreset _].
  apply Hreset; reflexivity.
Defined.

(** In the login route the instant [now = lockedUntil] cannot meet an
    expired window: [recordLoginFailure] runs after [canAttempt] has
    allowed the attempt, and an entry that [canAttempt] leaves in place
    is within its window and past its lock. *)
Lemma lock_end_not_met_in_route (ip : string) (tAttempt tFailure : Z)
    (m : gmap string Governor.Entry) (e : Governor.Entry) :
  0 <= tAttempt -> tAttempt <= tFailure ->
  Governor.allowed (fst (Governor.canAttempt ip tAttempt m)) = true ->
  snd (Governor.canAttempt ip tAttempt m) !! ip = Some e ->
  ~ (tFailure = Governor.lockedUntil e /\
     tFailure - Governor.first e > Governor.WINDOW_MS).
Proof.
  intros H0 Hle. unfold Governor.canAttempt.
  destruct (m !! ip) as [e0 |] eqn:Hm; cbn [fst snd].
  - destruct (negb (Governor.lockedUntil e0 =? 0) && (tAttempt <? Governor.lockedUntil e0))
      eqn:Hlock; cbn [fst snd Governor.allowed]; [discriminate |].
    destruct (Z.gtb_spec (tAttempt - Governor.first e0) Governor.WINDOW_MS) as [Hw | Hw];
      cbn [fst snd]; intros _ He.
    + rewrite lookup_delete_eq in He. discriminate.
    + rewrite Hm in He. injection He as <-. intros [Heq Hexp].
      apply andb_false_iff in Hlock as [Hz | Hlt].
      * apply negb_false_iff, Z.eqb_eq in Hz. lia.
      * apply Z.ltb_ge in Hlt. lia.
  - intros _ He. rewrite Hm in He. discriminate.
Qed.

(** Any failure that leaves the count over the threshold sets the lock
    from that count. *)
Lemma recordLoginFailure_lock (ip : string) (now : Z) (m : gmap string Governor.Entry) :
  Governor.MAX_ATTEMPTS_WINDOW < Governor.count (fst (Governor.recordLoginFailure ip now m)) ->
  Governor.lockedUntil (fst (Governor.recordLoginFailure ip now m)) =
  now + Governor.BASE_LOCK_MS *
        Z.min 8 (2 ^ (Governor.count (fst (Governor.recordLoginFailure ip now m))
                      - Governor.MAX_ATTEMPTS_WINDOW - 1)).
Proof.
  unfold Governor.recordLoginFailure.
  destruct (m !! ip) as [e |]; [| cbn; unfold Governor.MAX_ATTEMPTS_WINDOW; lia].
  destruct ((now - Governor.first e >? Governor.WINDOW_MS)
            && (now >? Governor.lockedUntil e));
    cbn [fst Governor.count Governor.first Governor.last Governor.lockedUntil].
  - cbn. unfold Governor.MAX_ATTEMPTS_WINDOW; lia.
  - destruct (Z.gtb_spec (Governor.count e + 1) Governor.MAX_ATTEMPTS_WINDOW) as [Hgt | Hle];
      cbn [fst Governor.count Governor.lockedUntil]; [| lia].
    intros _. unfold Governor.lockMsOf. reflexivity.
Qed.

Lemma recordLoginFailure_fresh (ip : string) (now : Z) (m : gmap string Governor.Entry) :
  m !! ip = None ->
  Governor.recordLoginFailure ip now m =
  ({| Governor.count := 1; Governor.first := now;
      Governor.last := now; Governor.lockedUntil := 0 |},
   <[ip := {| Governor.count := 1; Governor.first := now;
              Governor.last := now; Governor.lockedUntil := 0 |}]> m).
Proof. intros Hm. unfold Governor.recordLoginFailure. now rewrite Hm. Qed.

Lemma recordLoginFailure_in_window (ip : string) (now : Z)
    (m : gmap string Governor.Entry) (c f l u : Z) :
  m !! ip = Some {| Governor.count := c; Governor.first := f;
                    Governor.last := l; Governor.lockedUntil := u |} ->
  now - f <= Governor.WINDOW_MS ->
  snd (Governor.recordLoginFailure ip now m) =
  <[ip := {| Governor.count := c + 1; Governor.first := f; Governor.last := now;
             Governor.lockedUntil :=
               if c + 1 >? Governor.MAX_ATTEMPTS_WINDOW
               then now + Governor.lockMsOf (c + 1 - Governor.MAX_ATTEMPTS_WINDOW)
               else u |}]> m.
Proof.
  intros Hm Hw. rewrite recordLoginFailure_stored.
  now rewrite (recordLoginFailure_counts_on ip now m _ Hm (or_introl Hw)).
Qed.

Lemma five_failures_state (ip : string) (m : gmap string Governor.Entry)
    (t1 t2 t3 t4 t5 : Z) :
  m !! ip = None ->
  t1 <= t2 -> t2 <= t3 -> t3 <= t4 -> t4 <= t5 -> t5 - t1 <= Governor.WINDOW_MS ->
  Governor.recordFailures ip [t1; t2; t3; t4; t5] m !! ip =
  Some {| Governor.count := 5; Governor.first := t1;
          Governor.last := t5; Governor.lockedUntil := 0 |}.
Proof.
  intros Hm H12 H23 H34 H45 Hw.
  cbn [Governor.recordFailures].
  rewrite (recordLoginFailure_fresh ip t1 m Hm). cbn [snd].
  erewrite (recordLoginFailure_in_window ip t2 (<[_ := _]> _));
    [ | apply lookup_insert_eq | lia ].
  erewrite (recordLoginFailure_in_window ip t3 (<[_ := _]> _));
    [ | apply lookup_insert_eq | lia ].
  erewrite (recordLoginFailure_in_window ip t4 (<[_ := _]> _));
    [ | apply lookup_insert_eq | lia ].
  erewrite (recordLoginFailure_in_window ip t5 (<[_ := _]> _));
    [ | apply lookup_insert_eq | lia ].
  rewrite lookup_insert_eq. reflexivity.
Qed.

Example five_failures_allowed :
  Governor.allowed
    (fst (Governor.canAttempt "10.0.0.7" 5000
            (Governor.recordFailures "10.0.0.7" [0; 1000; 2000; 3000; 4000] ∅))) = true.
Proof. reflexivity. Qed.

Example sixth_failure_locks :
  Governor.canAttempt "10.0.0.7" 6000
    (Governor.recordFailures "10.0.0.7" [0; 1000; 2000; 3000; 4000; 5000] ∅) =
  ({| Governor.allowed := false; Governor.retryAfter := Some 299 |},
   Governor.recordFailures "10.0.0.7" [0; 1000; 2000; 3000; 4000; 5000] ∅).
Proof. reflexivity. Qed.

Example lock_is_capped :
  Governor.recordFailures "10.0.0.7" [0; 1; 2; 3; 4; 5; 6; 7; 8; 9; 10; 11] ∅ !! "10.0.0.7" =
  Some {| Governor.count := 12; Governor.first := 0;
          Governor.last := 11; Governor.lockedUntil := 11 + 8 * 300000 |}.
Proof. reflexivity. Qed.

(** C3: for an identity without entry, five failures within [WINDOW_MS]
    leave [count = 5] and no lock, so that an attempt is allowed at any
    time; a sixth failure within the window makes [count = 6] and sets
    [lockedUntil] to its time plus [BASE_LOCK_MS], and attempts are
    denied exactly until then; and every failure that leaves the count
    above [MAX_ATTEMPTS_WINDOW] sets [lockedUntil] to [now + BASE_LOCK_MS
    * min(8, 2^(count - MAX_ATTEMPTS_WINDOW - 1))], a multiplier between
    1 and 8. *)
Theorem lockout_escalation (ip : string) (m : gmap string Governor.Entry)
    (t1 t2 t3 t4 t5 t6 : Z) :
  m !! ip = None ->
  0 <= t1 -> t1 <= t2 -> t2 <= t3 -> t3 <= t4 -> t4 <= t5 -> t5 <= t6 ->
  t6 - t1 <= Governor.WINDOW_MS ->
  Governor.recordFailures ip [t1; t2; t3; t4; t5] m !! ip =
    Some {| Governor.count := 5; Governor.first := t1;
            Governor.last := t5; Governor.lockedUntil := 0 |} /\
  (forall now,
      Governor.allowed
        (fst (Governor.canAttempt ip now
                (Governor.recordFailures ip [t1; t2; t3; t4; t5] m))) = true) /\
  fst (Governor.recordLoginFailure ip t6
         (Governor.recordFailures ip [t1; t2; t3; t4; t5] m)) =
    {| Governor.count := 6; Governor.first := t1;
       Governor.last := t6; Governor.lockedUntil := t6 + Governor.BASE_LOCK_MS |} /\
  (forall now,
      Governor.allowed
        (fst (Governor.canAttempt ip now
                (Governor.recordFailures ip [t1; t2; t3; t4; t5; t6] m))) =
      negb (now <? t6 + Governor.BASE_LOCK_MS)) /\
  (forall (ip' : string) (now : Z) (m' : gmap string Governor.Entry),
      Governor.MAX_ATTEMPTS_WINDOW <
        Governor.count (fst (Governor.recordLoginFailure ip' now m')) ->
      Governor.lockedUntil (fst (Governor.recordLoginFailure ip' now m')) =
        now + Governor.BASE_LOCK_MS *
              Z.min 8 (2 ^ (Governor.count (fst (Governor.recordLoginFailure ip' now m'))
                            - Governor.MAX_ATTEMPTS_WINDOW - 1)) /\
      1 <= Z.min 8 (2 ^ (Governor.count (fst (Governor.recordLoginFailure ip' now m'))
                         - Governor.MAX_ATTEMPTS_WINDOW - 1)) <= 8).
Proof.
  intros Hm H0 H12 H23 H34 H45 H56 Hw.
  assert (Governor.recordFailures ip [t1; t2; t3; t4; t5] m !! ip =
          Some {| Governor.count := 5; Governor.first := t1;
                  Governor.last := t5; Governor.lockedUntil := 0 |}) as H5
    by (apply five_failures_state; trivial; lia).
  assert (fst (Governor.recordLoginFailure ip t6
                 (Governor.recordFailures ip [t1; t2; t3; t4; t5] m)) =
          {| Governor.count := 6; Governor.first := t1;
             Governor.last := t6; Governor.lockedUntil := t6 + Governor.BASE_LOCK_MS |}) as H6.
  { rewrite (recordLoginFailure_counts_on ip t6 _ _ H5) by (left; cbn; lia).
    reflexivity. }
  split; [exact H5 |]. split; [| split; [exact H6 | split]].
  - intros now. unfold Governor.canAttempt. rewrite H5. cbn.
    destruct (now - t1 >? Governor.WINDOW_MS); reflexivity.
  - intros now.
    change (Governor.recordFailures ip [t1; t2; t3; t4; t5; t6] m)
      with (snd (Governor.recordLoginFailure ip t6
                   (Governor.recordFailures ip [t1; t2; t3; t4; t5] m))).
    rewrite recordLoginFailure_stored, H6.
    unfold Governor.canAttempt. rewrite lookup_insert_eq.
    cbn [Governor.lockedUntil Governor.first].
    assert ((t6 + Governor.BASE_LOCK_MS =? 0) = false) as ->
      by (apply Z.eqb_neq; unfold Governor.BASE_LOCK_MS; lia).
    cbn [negb andb].
    destruct (now <? t6 + Governor.BASE_LOCK_MS); [reflexivity |].
    destruct (now - t1 >? Governor.WINDOW_MS); reflexivity.
  - intros ip' now m' Hover. split; [now apply recordLoginFailure_lock |].
    assert (0 < 2 ^ (Governor.count (fst (Governor.recordLoginFailure ip' now m'))
                     - Governor.MAX_ATTEMPTS_WINDOW - 1))
      by (apply Z.pow_pos_nonneg; lia).
    lia.
Qed.

Lemma lockout_escalation_witness :
  Governor.recordFailures "10.0.0.7" [0; 1000; 2000; 3000; 4000] ∅ !! "10.0.0.7" =
    Some {| Governor.count := 5; Governor.first := 0;
            Governor.last := 4000; Governor.lockedUntil := 0 |} /\
  fst (Governor.recordLoginFailure "10.0.0.7" 5000
         (Governor.recordFailures "10.0.0.7" [0; 1000; 2000; 3000; 4000] ∅)) =
    {| Governor.count := 6; Governor.first := 0;
       Governor.last := 5000; Governor.lockedUntil := 5000 + Governor.BASE_LOCK_MS |}.
Proof.
  pose proof (lockout_escalation "10.0.0.7" ∅ 0 1000 2000 3000 4000 5000) as H.
  destruct H as (H5 & _ & H6 & _).
  - reflexivity.
  - lia.
  - lia.
  - lia.
  - lia.
  - lia.
  - lia.
  - unfold Governor.WINDOW_MS. lia.
  - split; [exact H5 | exact H6].
Defined.

(** ** Client identity *)

Lemma trimEnd_idem (s : string) : trimEnd (trimEnd s) = trimEnd s.
Proof.
  induction s as [| c s IH]; [reflexivity |].
  cbn [trimEnd]. destruct (trimEnd s) as [| d r] eqn:E.
  - destruct (isSpace c) eqn:Ec; [reflexivity |].
    cbn [trimEnd]. now rewrite Ec.
  - cbn [trimEnd]. cbn [trimEnd] in IH. now rewrite IH.
Qed.

Lemma trimStart_head (s : string) :
  trimStart s = EmptyString \/
  exists c r, trimStart s = String c r /\ isSpace c = false.
Proof.
  induction s as [| c s IH]; [now left |].
  cbn [trimStart]. destruct (isSpace c) eqn:Ec; [exact IH |].
  right. now exists c, s.
Qed.

Lemma trimEnd_keeps_head (c : ascii) (r : string) :
  isSpace c = false -> exists r', trimEnd (String c r) = String c r'.
Proof.
  intros Ec. cbn [trimEnd]. destruct (trimEnd r) as [| d r'].
  - rewrite Ec. now exists EmptyString.
  - now exists (String d r').
Qed.

Lemma trim_idem (s : string) : trim (trim s) = trim s.
Proof.
  unfold trim. destruct (trimStart_head s) as [-> | (c & r & -> & Ec)]; [reflexivity |].
  destruct (trimEnd_keeps_head c r Ec) as [r' Hr]. rewrite Hr.
  cbn [trimStart]. rewrite Ec. rewrite <- Hr. apply trimEnd_idem.
Qed.

Lemma allChars_trimStart (q : ascii -> bool) (s : string) :
  allChars q s = true -> allChars q (trimStart s) = true.
Proof.
  induction s as [| c s IH]; [trivial |]. intros H.
  cbn [trimStart]. destruct (isSpace c); [| exact H].
  cbn [allChars] in H. apply andb_true_iff in H as [_ H]. now apply IH.
Qed.

Lemma allChars_trimEnd (q : ascii -> bool) (s : string) :
  allChars q s = true -> allChars q (trimEnd s) = true.
Proof.
  induction s as [| c s IH]; [trivial |]. intros H.
  cbn [allChars] in H. apply andb_true_iff in H as [Hc H].
  specialize (IH H). cbn [trimEnd]. destruct (trimEnd s) as [| d r].
  - destruct (isSpace c); [reflexivity |]. cbn [allChars]. now rewrite Hc.
  - cbn [allChars] in *. now rewrite Hc, IH.
Qed.

Lemma firstField_no_comma (s : string) :
  allChars (fun c => negb (isComma c)) (firstField s) = true.
Proof.
  induction s as [| c s IH]; [reflexivity |].
  cbn [firstField]. destruct (isComma c) eqn:Ec; [reflexivity |].
  cbn [allChars]. now rewrite Ec, IH.
Qed.

Lemma append_String (c : ascii) (a b : string) : String c a +:+ b = String c (a +:+ b).
Proof. reflexivity. Qed.

Lemma append_empty_r (a : string) : a +:+ "" = a.
Proof. induction a as [| c a IH]; [reflexivity |]. now rewrite append_String, IH. Qed.

Lemma firstField_app (a rest : string) :
  allChars (fun c => negb (isComma c)) a = true ->
  firstField (a +:+ String "," rest) = a.
Proof.
  induction a as [| c a IH]; [reflexivity |]. intros H.
  cbn [allChars] in H. apply andb_true_iff in H as [Hc H].
  rewrite append_String. cbn [firstField].
  destruct (isComma c); [discriminate |]. now rewrite IH.
Qed.

Lemma firstField_id (a : string) :
  allChars (fun c => negb (isComma c)) a = true -> firstField a = a.
Proof.
  induction a as [| c a IH]; [reflexivity |]. intros H.
  cbn [allChars] in H. apply andb_true_iff in H as [Hc H].
  cbn [firstField]. destruct (isComma c); [discriminate |]. now rewrite IH.
Qed.

Example getClientIp_forwarded_chain :
  getClientIp {| body_username := JNull; body_password := JNull;
                 header_forwarded_for := Some " 203.0.113.9 , 10.0.0.1, 10.0.0.2";
                 remoteAddress := Some "10.0.0.2" |} = "203.0.113.9".
Proof. reflexivity. Qed.

Example getClientIp_socket :
  getClientIp {| body_username := JNull; body_password := JNull;
                 header_forwarded_for := Some "";
                 remoteAddress := Some "198.51.100.4" |} = "198.51.100.4".
Proof. reflexivity. Qed.

(** X1: the identity [getClientIp] returns holds no comma and has no
    white space left to trim at either end. *)
Theorem getClientIp_normalised (req : LoginRequest) :
  allChars (fun c => negb (isComma c)) (getClientIp req) = true /\
  trim (getClientIp req) = getClientIp req.
Proof.
  unfold getClientIp. split; [| apply trim_idem].
  unfold trim. apply allChars_trimEnd, allChars_trimStart, firstField_no_comma.
Qed.

(** X2: when the request carries a non-empty [X-Forwarded-For] header,
    the identity is the trimmed first entry of that header, be it empty;
    the socket address plays no part. *)
Theorem getClientIp_from_header (req : LoginRequest) (a rest : string) :
  allChars (fun c => negb (isComma c)) a = true ->
  (a <> "" -> header_forwarded_for req = Some a -> getClientIp req = trim a) /\
  (header_forwarded_for req = Some (a +:+ String "," rest) -> getClientIp req = trim a).
Proof.
  intros Hc. split; [intros Ha Hh | intros Hh]; unfold getClientIp, strOr; rewrite Hh.
  - destruct (String.eqb_spec a ""); [contradiction |].
    now rewrite firstField_id.
  - destruct (String.eqb_spec (a +:+ String "," rest) "") as [E | _].
    + destruct a; discriminate.
    + now rewrite firstField_app.
Qed.

Lemma getClientIp_from_header_witness :
  getClientIp (wrongPassword "203.0.113.9, 10.0.0.1") = trim "203.0.113.9".
Proof.
  apply (proj2 (getClientIp_from_header (wrongPassword "203.0.113.9, 10.0.0.1")
                  "203.0.113.9" " 10.0.0.1" eq_refl)).
  reflexivity.
Defined.

(** ** Slugs *)

Lemma isHyphen_eq (c : ascii) : isHyphen c = true -> c = "-"%char.
Proof. unfold isHyphen. intros H. now apply Ascii.eqb_eq in H. Qed.

Lemma lowered_kept_is_slug_or_space (c : ascii) :
  (isWord (lowerAscii c) || isSpace (lowerAscii c) || isHyphen (lowerAscii c)) = true ->
  isSpace (lowerAscii c) = false ->
  slugChar (lowerAscii c) = true.
Proof.
  destruct c as [[] [] [] [] [] [] [] []]; vm_compute; congruence.
Qed.

Lemma slugChar_fixed (c : ascii) :
  slugChar c = true ->
  lowerAscii c = c /\ (isWord c || isSpace c || isHyphen c) = true /\ isSpace c = false.
Proof.
  destruct c as [[] [] [] [] [] [] [] []]; vm_compute; intros H;
    repeat split; congruence.
Qed.

Lemma slugChar_hyphen : slugChar "-" = true.
Proof. reflexivity. Qed.

(** After lower-casing, filtering and replacing white space, only slug
    characters are left. *)
Lemma spaces_collapsed_slug (b : bool) (s : string) :
  allChars slugChar
    (collapseRuns isSpace "-" b
       (keepChars (fun c => isWord c || isSpace c || isHyphen c) (toLowerCase s))) = true.
Proof.
  revert b. induction s as [| c s IH]; intros b; [reflexivity |].
  cbn [toLowerCase keepChars].
  destruct (isWord (lowerAscii c) || isSpace (lowerAscii c) || isHyphen (lowerAscii c))
    eqn:Ek; [| apply IH].
  pose proof (lowered_kept_is_slug_or_space c Ek) as Hslug.
  cbn [collapseRuns]. destruct (isSpace (lowerAscii c)).
  - destruct b; [apply IH |]. cbn [allChars]. now rewrite slugChar_hyphen, IH.
  - cbn [allChars]. now rewrite (Hslug eq_refl), IH.
Qed.

Lemma collapse_hyphens_slug (b : bool) (s : string) :
  allChars slugChar s = true ->
  allChars slugChar (collapseRuns isHyphen "-" b s) = true.
Proof.
  revert b. induction s as [| c s IH]; intros b H; [reflexivity |].
  cbn [allChars] in H. apply andb_true_iff in H as [Hc H].
  cbn [collapseRuns]. destruct (isHyphen c).
  - destruct b; [now apply IH |]. cbn [allChars]. now rewrite slugChar_hyphen, IH.
  - cbn [allChars]. now rewrite Hc, IH.
Qed.

Lemma collapse_hyphens_apart (b : bool) (s : string) :
  hyphensApart b (collapseRuns isHyphen "-" b s) = true.
Proof.
  revert b. induction s as [| c s IH]; intros b; [reflexivity |].
  cbn [collapseRuns]. destruct (isHyphen c) eqn:Ec.
  - destruct b; [apply IH |].
    cbn [hyphensApart]. change (isHyphen "-") with true. cbn [negb andb]. apply IH.
  - cbn [hyphensApart]. rewrite Ec. apply IH.
Qed.

Lemma hyphensApart_fixed (b : bool) (s : string) :
  hyphensApart b s = true -> collapseRuns isHyphen "-" b s = s.
Proof.
  revert b. induction s as [| c s IH]; intros b H; [reflexivity |].
  cbn [hyphensApart] in H. cbn [collapseRuns]. destruct (isHyphen c) eqn:Ec.
  - apply andb_true_iff in H as [Hb H]. destruct b; [discriminate |].
    rewrite (IH true H). now rewrite (isHyphen_eq c Ec).
  - now rewrite (IH false H).
Qed.

Lemma hyphensApart_no_pair (b : bool) (s : string) :
  hyphensApart b s = true -> includes s "--" = false.
Proof.
  revert b. induction s as [| c s IH]; intros b H; [reflexivity |].
  cbn [hyphensApart] in H. cbn [includes startsWith].
  destruct (isHyphen c) eqn:Ec.
  - apply andb_true_iff in H as [_ H]. rewrite (IH true H), orb_false_r.
    apply andb_false_iff. right.
    destruct s as [| d s]; [reflexivity |].
    cbn [hyphensApart] in H. cbn [startsWith].
    destruct (isHyphen d) eqn:Ed; [discriminate |].
    unfold isHyphen in Ed. rewrite Ascii.eqb_sym, Ed. reflexivity.
  - rewrite (IH false H), orb_false_r.
    unfold isHyphen in Ec. rewrite Ascii.eqb_sym, Ec. reflexivity.
Qed.

Lemma slug_stages_fixed (s : string) :
  allChars slugChar s = true ->
  collapseRuns isSpace "-" false
    (keepChars (fun c => isWord c || isSpace c || isHyphen c) (toLowerCase s)) = s.
Proof.
  induction s as [| c s IH]; [reflexivity |]. intros H.
  cbn [allChars] in H. apply andb_true_iff in H as [Hc H].
  destruct (slugChar_fixed c Hc) as (Hl & Hk & Hs).
  cbn [toLowerCase keepChars]. rewrite Hl, Hk. cbn [collapseRuns]. rewrite Hs.
  now rewrite IH.
Qed.

Example generateSlug_title : generateSlug "The Matrix: Reloaded  (2003)" = "the-matrix-reloaded-2003".
Proof. reflexivity. Qed.

Example generateSlug_keeps_outer_hyphens : generateSlug " Amelie - 2001 " = "-amelie-2001-".
Proof. reflexivity. Qed.

(** X3: a slug consists of lower-case letters, digits, underscores and
    hyphens only, and holds no two hyphens in a row. *)
Theorem generateSlug_shape (title : string) :
  allChars slugChar (generateSlug title) = true /\
  includes (generateSlug title) "--" = false.
Proof.
  unfold generateSlug. split.
  - apply collapse_hyphens_slug, spaces_collapsed_slug.
  - apply (hyphensApart_no_pair false), collapse_hyphens_apart.
Qed.

(** X4: a slug is its own slug. *)
Theorem generateSlug_idempotent (title : string) :
  generateSlug (generateSlug title) = generateSlug title.
Proof.
  assert (allChars slugChar (generateSlug title) = true) as Hc
    by (unfold generateSlug; apply collapse_hyphens_slug, spaces_collapsed_slug).
  assert (hyphensApart false (generateSlug title) = true) as Hh
    by (unfold generateSlug; apply collapse_hyphens_apart).
  unfold generateSlug at 1. rewrite (slug_stages_fixed _ Hc).
  now apply hyphensApart_fixed.
Qed.

(** ** The provider's own selection *)

Lemma qualityScore_good (v : JsVal) :
  badQuality v = false -> qualityScore v = Normal (match qualityScore v with
                                                   | Normal z => z
                                                   | Throw _ => 0
                                                   end).
Proof.
  unfold badQuality, qualityScore. destruct v; cbn; try congruence.
  - destruct b; cbn; congruence.
  - destruct (n =? 0); cbn; congruence.
  - intros _. destruct (String.eqb s ""); cbn; [reflexivity |].
    repeat match goal with |- context [if ?b then _ else _] => destruct b end;
      reflexivity.
Qed.

Lemma qualityScore_bad (v : JsVal) :
  badQuality v = true ->
  qualityScore v = Throw (mkError "quality.toUpperCase is not a function").
Proof.
  unfold badQuality, qualityScore. destruct v; cbn; try congruence.
  - destruct b; cbn; congruence.
  - destruct (n =? 0); cbn; congruence.
  - rewrite andb_false_r. congruence.
Qed.

Lemma reduceBest_good (prev curr : Stream) :
  badQuality (quality prev) = false -> badQuality (quality curr) = false ->
  reduceBest prev curr =
  Normal (if hydraScoreOf curr >? hydraScoreOf prev then curr else prev).
Proof.
  intros Hp Hc. unfold reduceBest, hydraScoreOf.
  rewrite (qualityScore_good _ Hc), (qualityScore_good _ Hp). reflexivity.
Qed.

Lemma reduceFrom_good (acc : Stream) (rest : list Stream) :
  badQuality (quality acc) = false ->
  Forall (fun s => badQuality (quality s) = false) rest ->
  reduceFrom acc rest = Normal (firstMaxFrom hydraScoreOf acc rest).
Proof.
  intros Ha Hr. revert acc Ha.
  induction Hr as [| c rest Hc _ IH]; intros acc Ha; [reflexivity |].
  cbn [reduceFrom]. rewrite (reduceBest_good acc c Ha Hc).
  change (firstMaxFrom hydraScoreOf acc (c :: rest))
    with (firstMaxFrom hydraScoreOf
            (if hydraScoreOf c >? hydraScoreOf acc then c else acc) rest).
  apply IH.
  destruct (hydraScoreOf c >? hydraScoreOf acc); assumption.
Qed.

Lemma reduceFrom_bad (acc : Stream) (rest : list Stream) :
  rest <> [] ->
  badQuality (quality acc) = true \/ Exists (fun s => badQuality (quality s) = true) rest ->
  reduceFrom acc rest = Throw (mkError "quality.toUpperCase is not a function").
Proof.
  revert acc. induction rest as [| c rest IH]; intros acc Hne Hbad; [congruence |].
  cbn [reduceFrom]. unfold reduceBest.
  destruct (badQuality (quality c)) eqn:Ec.
  { now rewrite (qualityScore_bad _ Ec). }
  rewrite (qualityScore_good _ Ec).
  destruct (badQuality (quality acc)) eqn:Ea.
  { now rewrite (qualityScore_bad _ Ea). }
  rewrite (qualityScore_good _ Ea).
  destruct Hbad as [Hbad | Hbad]; [discriminate |].
  apply Exists_cons in Hbad as [Hbad | Hbad]; [congruence |].
  apply IH.
  - intros ->. now apply Exists_nil in Hbad.
  - now right.
Qed.

(** Where the first maximum stands. *)
Lemma firstMaxFrom_split {A : Type} (key : A -> Z) (rest p1 p2 : list A) (acc : A) :
  Forall (fun x => key x < key acc) p1 ->
  Forall (fun x => key x <= key acc) p2 ->
  exists l1 l2,
    (p1 ++ acc :: p2 ++ rest = l1 ++ firstMaxFrom key acc rest :: l2)%list /\
    Forall (fun x => key x < key (firstMaxFrom key acc rest)) l1 /\
    Forall (fun x => key x <= key (firstMaxFrom key acc rest)) l2.
Proof.
  revert p1 p2 acc. induction rest as [| c rest IH]; intros p1 p2 acc H1 H2.
  - exists p1, p2. rewrite app_nil_r. repeat split; assumption.
  - change (firstMaxFrom key acc (c :: rest))
      with (firstMaxFrom key (if key c >? key acc then c else acc) rest).
    destruct (Z.gtb_spec (key c) (key acc)) as [Hgt | Hle].
    + destruct (IH (p1 ++ acc :: p2)%list [] c) as (l1 & l2 & Heq & Hl1 & Hl2).
      * apply Forall_app. split.
        -- eapply Forall_impl; [exact H1 |]. intros; simpl in *; lia.
        -- constructor; [lia |].
           eapply Forall_impl; [exact H2 |]. intros; simpl in *; lia.
      * constructor.
      * exists l1, l2. split; [| split; assumption].
        rewrite <- Heq, <- List.app_assoc. reflexivity.
    + destruct (IH p1 (p2 ++ [c])%list acc) as (l1 & l2 & Heq & Hl1 & Hl2).
      * exact H1.
      * apply Forall_app. split; [exact H2 |]. constructor; [lia | constructor].
      * exists l1, l2. split; [| split; assumption].
        rewrite <- Heq, <- List.app_assoc. reflexivity.
Qed.

(** The first maximum is determined by its position. *)
Lemma first_max_unique {A : Type} (key : A -> Z) (l1 l1' l2 l2' : list A) (b b' : A) :
  (l1 ++ b :: l2 = l1' ++ b' :: l2')%list ->
  Forall (fun x => key x < key b) l1 -> Forall (fun x => key x <= key b) l2 ->
  Forall (fun x => key x < key b') l1' -> Forall (fun x => key x <= key b') l2' ->
  b = b'.
Proof.
  revert l1'. induction l1 as [| x l1 IH]; intros l1' Heq H1 H2 H1' H2'.
  - destruct l1' as [| y l1']; [now injection Heq |].
    cbn in Heq. injection Heq as <- Heq.
    apply Forall_cons in H1' as [Hb _].
    assert (In b' l2) as Hin by (rewrite Heq; apply in_elt).
    rewrite List.Forall_forall in H2. specialize (H2 b' Hin). lia.
  - destruct l1' as [| y l1'].
    + cbn in Heq. injection Heq as -> Heq.
      apply Forall_cons in H1 as [Hb _].
      assert (In b l2') as Hin by (rewrite <- Heq; apply in_elt).
      rewrite List.Forall_forall in H2'. specialize (H2' b Hin). lia.
    + cbn in Heq. injection Heq as <- Heq.
      apply Forall_cons in H1 as [_ H1]. apply Forall_cons in H1' as [_ H1'].
      exact (IH l1' Heq H1 H2 H1' H2').
Qed.

Lemma firstMaxFrom_scaled {A : Type} (f g : A -> Z) (acc : A) (rest : list A) :
  g acc = 10 * f acc -> Forall (fun x => g x = 10 * f x) rest ->
  firstMaxFrom g acc rest = firstMaxFrom f acc rest.
Proof.
  intros Ha Hr. revert acc Ha.
  induction Hr as [| c rest Hc _ IH]; intros acc Ha; [reflexivity |].
  change (firstMaxFrom g acc (c :: rest))
    with (firstMaxFrom g (if g c >? g acc then c else acc) rest).
  change (firstMaxFrom f acc (c :: rest))
    with (firstMaxFrom f (if f c >? f acc then c else acc) rest).
  assert ((g c >? g acc) = (f c >? f acc)) as ->.
  { rewrite Hc, Ha. destruct (Z.gtb_spec (f c) (f acc)); [apply gtb_true | apply gtb_false]; lia. }
  apply IH. destruct (f c >? f acc); assumption.
Qed.

Lemma arraySort_head_firstMax (s0 : Stream) (rest : list Stream) :
  head (arraySort compareStreams (s0 :: rest)) = Some (firstMaxFrom scoreOf s0 rest).
Proof.
  destruct (arraySort_head (s0 :: rest)) as (b & tl & l1 & l2 & Hs & Hl & H1 & H2);
    [discriminate |].
  destruct (firstMaxFrom_split scoreOf rest [] [] s0) as (k1 & k2 & Hk & Hk1 & Hk2);
    [constructor | constructor |].
  cbn [app] in Hk. rewrite Hs. cbn [head]. f_equal.
  rewrite Hl in Hk.
  exact (first_max_unique scoreOf l1 k1 l2 k2 b _ Hk H1 H2 Hk1 Hk2).
Qed.

Lemma sharedQuality_scale (v : JsVal) :
  sharedQuality v = true ->
  badQuality v = false /\
  getQualityScore v = 10 * match qualityScore v with Normal z => z | Throw _ => 0 end.
Proof.
  destruct v; cbn; try (intros; split; reflexivity || congruence).
  - destruct b; cbn; [discriminate | intros; split; reflexivity].
  - unfold getQualityScore, qualityScore, badQuality. cbn.
    destruct (n =? 0); cbn; [intros; split; reflexivity | discriminate].
  - intros Hs. split; [unfold badQuality; cbn; apply andb_false_r |].
    destruct (shared_tier_scale s Hs) as (x & Hx & Hg). now rewrite Hx.
Qed.

Example hydra_direct_example :
  getMP4HydraDirectStream [a720; b1080; c1080; d480] = Normal (Some (JStr "u2")).
Proof. reflexivity. Qed.

(** X5: when no stream has a quality on which the scorer throws,
    [getMP4HydraDirectStream] returns the [url] of a stream of highest
    provider score, every stream before which scores strictly less: of
    equally scored streams the first (the first server's) is taken. *)
Theorem hydra_direct_first_best (s0 : Stream) (rest : list Stream) :
  Forall (fun s => badQuality (quality s) = false) (s0 :: rest) ->
  exists best l1 l2,
    getMP4HydraDirectStream (s0 :: rest) = Normal (Some (url best)) /\
    (s0 :: rest = l1 ++ best :: l2)%list /\
    Forall (fun s => hydraScoreOf s < hydraScoreOf best) l1 /\
    Forall (fun s => hydraScoreOf s <= hydraScoreOf best) l2.
Proof.
  intros Hgood. apply Forall_cons in Hgood as [H0 Hrest].
  destruct (firstMaxFrom_split hydraScoreOf rest [] [] s0) as (l1 & l2 & Heq & H1 & H2);
    [constructor | constructor |].
  exists (firstMaxFrom hydraScoreOf s0 rest), l1, l2.
  cbn [getMP4HydraDirectStream]. rewrite (reduceFrom_good s0 rest H0 Hrest).
  repeat split; assumption.
Qed.

Lemma hydra_direct_first_best_witness :
  exists best l1 l2,
    getMP4HydraDirectStream [a720; b1080; c1080] = Normal (Some (url best)) /\
    ([a720; b1080; c1080] = l1 ++ best :: l2)%list /\
    Forall (fun s => hydraScoreOf s < hydraScoreOf best) l1 /\
    Forall (fun s => hydraScoreOf s <= hydraScoreOf best) l2.
Proof.
  apply (hydra_direct_first_best a720 [b1080; c1080]).
  repeat constructor.
Defined.

(** X6: on streams whose qualities lie in the tiers both scorers know,
    the provider's direct selection is the [url] of the very stream the
    server's [pickBestStream] selects without a preferred provider. *)
Theorem hydra_direct_agrees_with_server (streams : list Stream) :
  Forall (fun s => sharedQuality (quality s) = true) streams ->
  getMP4HydraDirectStream streams =
  Normal (option_map url (fst (pickBestStream streams JNull))).
Proof.
  intros Hsh. destruct streams as [| s0 rest]; [reflexivity |].
  assert (Forall (fun s => badQuality (quality s) = false
                           /\ scoreOf s = 10 * hydraScoreOf s) (s0 :: rest)) as Hall.
  { eapply Forall_impl; [exact Hsh |]. intros s Hs. cbn beta in Hs.
    destruct (sharedQuality_scale _ Hs) as [Hb Hg]. split; [exact Hb | exact Hg]. }
  apply Forall_cons in Hall as [[H0 Hs0] Hrest].
  cbn [getMP4HydraDirectStream].
  rewrite (reduceFrom_good s0 rest H0)
    by (eapply Forall_impl; [exact Hrest |]; intros s [Hb _]; exact Hb).
  unfold pickBestStream. cbn [length Nat.eqb truthy fst].
  rewrite arraySort_head_firstMax. cbn [option_map].
  rewrite (firstMaxFrom_scaled hydraScoreOf scoreOf s0 rest Hs0)
    by (eapply Forall_impl; [exact Hrest |]; intros s [_ Hg]; exact Hg).
  reflexivity.
Qed.

Lemma hydra_direct_agrees_with_server_witness :
  getMP4HydraDirectStream [a720; b1080; c1080; d480] =
  Normal (option_map url (fst (pickBestStream [a720; b1080; c1080; d480] JNull))).
Proof.
  apply (hydra_direct_agrees_with_server [a720; b1080; c1080; d480]).
  repeat constructor.
Defined.

(** X7: a list of two or more streams one of which has a truthy quality
    that is not a string makes [getMP4HydraDirectStream] throw the
    scorer's [TypeError]; a single stream is returned unscored, whatever
    its quality. *)
Theorem hydra_direct_throws (streams : list Stream) :
  (2 <= length streams)%nat ->
  Exists (fun s => badQuality (quality s) = true) streams ->
  getMP4HydraDirectStream streams =
    Throw (mkError "quality.toUpperCase is not a function") /\
  (forall s, getMP4HydraDirectStream [s] = Normal (Some (url s))).
Proof.
  intros Hlen Hbad. split; [| reflexivity].
  destruct streams as [| s0 [| s1 rest]]; cbn [length] in Hlen; try lia.
  cbn [getMP4HydraDirectStream].
  rewrite (reduceFrom_bad s0 (s1 :: rest)); [reflexivity | discriminate |].
  apply Exists_cons in Hbad as [Hbad | Hbad]; [now left | now right].
Qed.

Lemma hydra_direct_throws_witness :
  getMP4HydraDirectStream
    [a720; {| title := JNull; url := JStr "u9"; quality := JNum 1080;
              provider := JStr "mp4hydra"; headers := None; subtitles := [] |}] =
  Throw (mkError "quality.toUpperCase is not a function").
Proof.
  apply (hydra_direct_throws
           [a720; {| title := JNull; url := JStr "u9"; quality := JNum 1080;
                     provider := JStr "mp4hydra"; headers := None; subtitles := [] |}]).
  - cbn. lia.
  - apply Exists_cons_tl, Exists_cons_hd. reflexivity.
Defined.

(** ** More on selection *)

Lemma pickBestStream_none (streams : list Stream) (pref : JsVal) :
  candidatesOf streams pref = [] -> pickBestStream streams pref = (None, streams).
Proof.
  unfold candidatesOf, pickBestStream. intros Hc.
  destruct (truthy pref).
  - rewrite Hc. destruct (length streams =? 0)%nat; reflexivity.
  - now rewrite Hc.
Qed.

Lemma head_In {A : Type} (l : list A) (x : A) : head l = Some x -> In x l.
Proof. destruct l; cbn; [discriminate |]. intros [= ->]. now left. Qed.

Lemma arraySort_idem (l : list Stream) :
  arraySort compareStreams (arraySort compareStreams l) = arraySort compareStreams l.
Proof.
  symmetry. apply arraySort_unique; [apply arraySort_sorted | reflexivity].
Qed.

(** X8: [pickBestStream] returns [null] exactly when there is no
    candidate (no stream, or none of the preferred provider); a stream it
    returns is one of the list and, when a preferred provider is given,
    is of that provider. *)
Theorem pickBestStream_result (streams : list Stream) (pref : JsVal) :
  (fst (pickBestStream streams pref) = None <-> candidatesOf streams pref = []) /\
  (forall b, fst (pickBestStream streams pref) = Some b ->
             In b streams /\
             (truthy pref = true -> strictEq (provider b) pref = true)).
Proof.
  assert (candidatesOf streams pref = [] \/ candidatesOf streams pref <> []) as [Ec | Hne]
    by (destruct (candidatesOf streams pref); [left | right]; congruence).
  - rewrite (pickBestStream_none streams pref Ec). cbn [fst].
    split; [tauto | discriminate].
  - rewrite (pickBestStream_candidates streams pref Hne). cbn [fst].
    destruct (arraySort_head _ Hne) as (b0 & tl & l1 & l2 & Hs & _).
    split; [rewrite Hs; cbn; split; [discriminate | contradiction] |].
    intros b Hb. apply head_In in Hb.
    apply (Permutation_in _ (Permutation_sym (arraySort_perm _ _))) in Hb.
    unfold candidatesOf in Hb. destruct (truthy pref).
    + apply List.filter_In in Hb as [Hin Hp]. split; [exact Hin | intros _; exact Hp].
    + split; [exact Hb | discriminate].
Qed.

Lemma pickBestStream_result_witness :
  In c1080 [a720; b1080; d480; c1080] /\
  (truthy (JStr "c") = true -> strictEq (provider c1080) (JStr "c") = true).
Proof.
  apply (proj2 (pickBestStream_result [a720; b1080; d480; c1080] (JStr "c")) c1080).
  reflexivity.
Defined.

(** X9: calling [pickBestStream] again on the array the first call left
    behind gives the same stream and leaves the array as it is: the
    in-place sort does not change what later calls select. *)
Theorem pickBestStream_again (streams : list Stream) (pref : JsVal) :
  pickBestStream (snd (pickBestStream streams pref)) pref = pickBestStream streams pref.
Proof.
  destruct (truthy pref) eqn:Ep.
  - assert (snd (pickBestStream streams pref) = streams) as ->; [| reflexivity].
    unfold pickBestStream. rewrite Ep.
    repeat match goal with |- context [if ?b then _ else _] => destruct b end;
      reflexivity.
  - assert (forall l, pickBestStream l pref =
                      (head (arraySort compareStreams l), arraySort compareStreams l)) as Hp.
    { intros l. unfold pickBestStream. rewrite Ep. destruct l; reflexivity. }
    rewrite !Hp. cbn [snd]. now rewrite arraySort_idem.
Qed.

(** ** More on the routes *)

Lemma timingOf_is_Some (env : Env) (req : Request) (imdbId : option string) (n : string) :
  callbackError env req imdbId n = None ->
  (is_Some (timingOf env req imdbId n) <->
   exists prov, getProvider env n = Some prov /\ enabled prov = true).
Proof.
  unfold callbackError, timingOf, invokeProvider.
  destruct (getProvider env n) as [prov |].
  - destruct (enabled prov) eqn:Ee; cbn [negb].
    + destruct (fetch env prov req imdbId) as [r ms | e].
      * intros _. rewrite lookup_insert_eq. split; eauto.
      * destruct (messageOf e); [| discriminate].
        intros _. rewrite lookup_insert_eq. split; eauto.
    + intros _. rewrite lookup_empty. split; [intros [? ?]; discriminate |].
      intros (prov' & [= <-] & He). congruence.
  - intros _. rewrite lookup_empty. split; [intros [? ?]; discriminate |].
    intros (prov' & ? & _). discriminate.
Qed.

Lemma filter_none {A : Type} (f : A -> bool) (l : list A) :
  Forall (fun x => f x = false) l -> List.filter f l = [].
Proof.
  induction 1 as [| x l Hx _ IH]; [reflexivity |].
  cbn [List.filter]. now rewrite Hx.
Qed.

Lemma no_candidate (streams : list Stream) (p : string) :
  p <> "" ->
  Forall (fun s => strictEq (provider s) (JStr p) = false) streams ->
  fst (pickBestStream streams (JStr p)) = None.
Proof.
  intros Hp Hall. rewrite pickBestStream_none; [reflexivity |].
  unfold candidatesOf. rewrite (truthy_nonempty p Hp). now apply filter_none.
Qed.

Example unknown_and_disabled_leave_no_timing :
  fanOut (exampleEnv false ["a"; "zz"; "c"] oneRejects) (exampleRequest "" None)
    None ["a"; "zz"; "c"] ∅ =
  Normal ([[a720]; []; [c1080]], <["c" := TimingMs 30]> (<["a" := TimingMs 12]> ∅)).
Proof. reflexivity. Qed.

(** X10: after a fan-out that resolves, [providerTimings] has an entry
    for exactly the selected names that are registered and enabled; a
    name that is not registered or is disabled adds no stream and no
    timing. *)
Theorem providerTimings_keys (env : Env) (req : Request) (imdbId : option string)
    (results : list (list Stream)) (timings : gmap string Timing) (n : string) :
  fanOut env req imdbId (selectedProvidersOf env) ∅ = Normal (results, timings) ->
  (is_Some (timings !! n) <->
   n ∈ selectedProvidersOf env /\
   exists prov, getProvider env n = Some prov /\ enabled prov = true) /\
  ((forall prov, getProvider env n = Some prov -> enabled prov = false) ->
   contribution env req imdbId n = [] /\ timings !! n = None).
Proof.
  intros Hfan.
  destruct (fanOut_Normal env req imdbId _ _ _ _ Hfan) as (_ & Hall & Hlook).
  rewrite Forall_forall in Hall. rewrite Hlook. split.
  - case_decide as Hin.
    + pose proof (timingOf_is_Some env req imdbId n (Hall n Hin)) as Hiff.
      destruct (timingOf env req imdbId n) as [v |] eqn:Et.
      * split; [intros _; split; [exact Hin |] | intros _; eauto].
        apply (proj1 Hiff). eauto.
      * rewrite lookup_empty. split; [intros [? ?]; discriminate |].
        intros [_ Hp]. apply (proj2 Hiff) in Hp. destruct Hp; discriminate.
    + rewrite lookup_empty. split; [intros [? ?]; discriminate | tauto].
  - intros Hoff.
    assert (contribution env req imdbId n = [] /\ timingOf env req imdbId n = None)
      as [Hc Ht].
    { unfold contribution, timingOf, invokeProvider.
      destruct (getProvider env n) as [prov |] eqn:Hp;
        [rewrite (Hoff prov eq_refl); cbn [negb] |];
        now rewrite lookup_empty. }
    split; [exact Hc |]. rewrite Ht. now case_decide.
Qed.

Lemma providerTimings_keys_witness :
  contribution (exampleEnv false ["a"; "zz"; "c"] oneRejects) (exampleRequest "" None)
    None "zz" = [] /\
  (<["c" := TimingMs 30]> (<["a" := TimingMs 12]> ∅) : gmap string Timing) !! "zz" = None.
Proof.
  apply (proj2 (providerTimings_keys (exampleEnv false ["a"; "zz"; "c"] oneRejects)
                  (exampleRequest "" None) None [[a720]; []; [c1080]]
                  (<["c" := TimingMs 30]> (<["a" := TimingMs 12]> ∅)) "zz" eq_refl)).
  intros prov Hp. discriminate Hp.
Defined.

Example direct_mislabelled_404 :
  getProviderStreams (exampleEnv false [] labelledB) (exampleRequest "a" (Some "")) =
    Text 404 "No stream from a" /\
  responseStreams
    (getProviderStreams (exampleEnv false [] labelledB) (exampleRequest "a" None)) = [b1080].
Proof. split; reflexivity. Qed.

(** X11: direct mode does not fall back to another provider.  When the
    aggregate route, its batch resolved, is asked for a non-empty
    [provider] that none of the streams in hand carries, the answer is
    the 404, whatever else was found; the provider route answers its 404 when none of the provider's
    streams carries the route's provider name in its [provider] field. *)
Theorem direct_mode_no_fallback (env : Env) (req : Request) (imdbId : option string) :
  isDirect req = true ->
  validType (params_type req) = true ->
  resolveImdbId env (tmdbTypeOf (params_type req)) (params_tmdbId req) = Normal imdbId ->
  (forall results timings p,
     fanOut env req imdbId (selectedProvidersOf env) ∅ = Normal (results, timings) ->
     query_provider req = Some p -> p <> "" ->
     Forall (fun s => strictEq (provider s) (JStr p) = false)
       (aggregateStreamsOf env req results) ->
     getAggregateStreams env req = Text 404 "No suitable stream found") /\
  (forall prov r ms,
     getProvider env (params_provider req) = Some prov -> enabled prov = true ->
     fetch env prov req imdbId = Resolved r ms ->
     params_provider req <> "" ->
     Forall (fun s => strictEq (provider s) (JStr (params_provider req)) = false)
       (providerStreamsOf env req prov r) ->
     getProviderStreams env req = Text 404 ("No stream from " +:+ params_provider req)).
Proof.
  intros Hd Hty Hres. split.
  - intros results timings p Hfan Hq Hp Hall.
    rewrite (aggregate_normal_mode env req imdbId results timings Hty Hres Hfan), Hd.
    unfold preferredProviderOf, orElse. rewrite Hq, (truthy_nonempty p Hp).
    now rewrite (no_candidate _ p Hp Hall).
  - intros prov r ms Hprov He Hf Hp Hall.
    rewrite (provider_normal_mode env req imdbId prov r ms Hty Hprov He Hres Hf), Hd.
    now rewrite (no_candidate _ _ Hp Hall).
Qed.

Lemma direct_mode_no_fallback_witness :
  getProviderStreams (exampleEnv false [] labelledB) (exampleRequest "a" (Some "")) =
    Text 404 ("No stream from " +:+ "a").
Proof.
  pose proof (direct_mode_no_fallback (exampleEnv false [] labelledB)
                (exampleRequest "a" (Some "")) (Some "tt0133093")
                eq_refl eq_refl eq_refl) as [_ H].
  apply (H (mkProvider "a" true) [b1080] 3); try reflexivity.
  - discriminate.
  - repeat constructor.
Defined.

(** ** More on the governor *)

Lemma recordLoginFailure_last (ip : string) (now : Z) (m : gmap string Governor.Entry) :
  Governor.last (fst (Governor.recordLoginFailure ip now m)) = now.
Proof.
  unfold Governor.recordLoginFailure. destruct (m !! ip) as [e |]; [| reflexivity].
  cbn [fst].
  repeat match goal with |- context [if ?b then _ else _] => destruct b end;
    reflexivity.
Qed.

Lemma recordLoginFailure_count (ip : string) (now : Z) (m : gmap string Governor.Entry) :
  Governor.count (fst (Governor.recordLoginFailure ip now m)) = 1 \/
  exists e, m !! ip = Some e /\
            Governor.count (fst (Governor.recordLoginFailure ip now m)) =
            Governor.count e + 1.
Proof.
  unfold Governor.recordLoginFailure. destruct (m !! ip) as [e |]; [| left; reflexivity].
  cbn [fst].
  destruct ((now - Governor.first e >? Governor.WINDOW_MS)
            && (now >? Governor.lockedUntil e));
    cbn [Governor.count Governor.first Governor.last Governor.lockedUntil].
  - left. destruct (1 >? Governor.MAX_ATTEMPTS_WINDOW); reflexivity.
  - right. exists e. split; [reflexivity |].
    destruct (Governor.count e + 1 >? Governor.MAX_ATTEMPTS_WINDOW); reflexivity.
Qed.

Lemma recordLoginFailure_entryOk (ip : string) (now : Z) (m : gmap string Governor.Entry) :
  map_Forall (fun _ e => entryOk e) m ->
  entryOk (fst (Governor.recordLoginFailure ip now m)).
Proof.
  intros Hm. split.
  - destruct (recordLoginFailure_count ip now m) as [-> | (e & He & ->)]; [lia |].
    destruct (Hm ip e He) as [Hc _]. lia.
  - intros Hover. rewrite (recordLoginFailure_lock ip now m Hover).
    rewrite recordLoginFailure_last. unfold Governor.lockMsOf. reflexivity.
Qed.

Lemma applyOp_entryOk (m : gmap string Governor.Entry) (op : GovernorOp) :
  map_Forall (fun _ e => entryOk e) m ->
  map_Forall (fun _ e => entryOk e) (applyOp m op).
Proof.
  intros Hm. destruct op as [ip now | ip now | ip]; cbn [applyOp].
  - unfold Governor.canAttempt. destruct (m !! ip) as [e |]; [| exact Hm].
    destruct (negb (Governor.lockedUntil e =? 0) && (now <? Governor.lockedUntil e));
      [exact Hm |].
    destruct (now - Governor.first e >? Governor.WINDOW_MS); [| exact Hm].
    cbn [snd]. now apply map_Forall_delete.
  - rewrite recordLoginFailure_stored.
    apply map_Forall_insert_2; [| exact Hm].
    now apply recordLoginFailure_entryOk.
  - unfold Governor.recordLoginSuccess. now apply map_Forall_delete.
Qed.

Lemma runOps_entryOk (ops : list GovernorOp) (m : gmap string Governor.Entry) :
  map_Forall (fun _ e => entryOk e) m ->
  map_Forall (fun _ e => entryOk e) (runOps ops m).
Proof.
  revert m. induction ops as [| op ops IH]; intros m Hm; [exact Hm |].
  unfold runOps. cbn [fold_left]. apply IH. now apply applyOp_entryOk.
Qed.

(** X12: whatever attempts, failures and successes are recorded, at
    whatever times, every stored entry counts at least one failure, and
    an entry over the threshold is locked from its last failure for
    [BASE_LOCK_MS] times the multiplier of its count, at most 40
    minutes. *)
Theorem governor_invariant (ops : list GovernorOp) (ip : string) (e : Governor.Entry) :
  runOps ops ∅ !! ip = Some e ->
  entryOk e /\
  (Governor.MAX_ATTEMPTS_WINDOW < Governor.count e ->
   Governor.last e + Governor.BASE_LOCK_MS <= Governor.lockedUntil e
     <= Governor.last e + 8 * Governor.BASE_LOCK_MS).
Proof.
  intros He.
  assert (entryOk e) as Hok.
  { apply (runOps_entryOk ops ∅ (map_Forall_empty _) ip e He). }
  split; [exact Hok |]. intros Hover. destruct Hok as [_ Hlock].
  rewrite (Hlock Hover). unfold Governor.lockMsOf, Governor.BASE_LOCK_MS.
  assert (0 < 2 ^ (Governor.count e - Governor.MAX_ATTEMPTS_WINDOW - 1))
    by (apply Z.pow_pos_nonneg; lia).
  lia.
Qed.

Lemma governor_invariant_witness :
  entryOk {| Governor.count := 7; Governor.first := 0;
             Governor.last := 400000; Governor.lockedUntil := 1000000 |}.
Proof.
  apply (governor_invariant
           [OpFailure "a" 0; OpFailure "a" 1; OpAttempt "b" 2; OpFailure "a" 2;
            OpFailure "a" 3; OpFailure "a" 4; OpFailure "a" 5; OpSuccess "b";
            OpFailure "a" 400000] "a").
  reflexivity.
Defined.

(** X13: the lock schedule: the failure that brings the count to 6
    locks for 5 minutes, to 7 for 10, to 8 for 20, and every failure
    that leaves the count at 9 or more locks for exactly 40 minutes. *)
Theorem lock_schedule (ip : string) (now : Z) (m : gmap string Governor.Entry) :
  let e := fst (Governor.recordLoginFailure ip now m) in
  (Governor.count e = 6 -> Governor.lockedUntil e = now + 300000) /\
  (Governor.count e = 7 -> Governor.lockedUntil e = now + 600000) /\
  (Governor.count e = 8 -> Governor.lockedUntil e = now + 1200000) /\
  (9 <= Governor.count e -> Governor.lockedUntil e = now + 2400000).
Proof.
  cbv zeta.
  repeat split; intros Hc;
    rewrite recordLoginFailure_lock by (unfold Governor.MAX_ATTEMPTS_WINDOW; lia).
  1-3: rewrite Hc; reflexivity.
  unfold Governor.BASE_LOCK_MS, Governor.MAX_ATTEMPTS_WINDOW.
  assert (2 ^ 3 <= 2 ^ (Governor.count (fst (Governor.recordLoginFailure ip now m)) - 5 - 1))
    by (apply Z.pow_le_mono_r; lia).
  change (2 ^ 3) with 8 in H. lia.
Qed.

Lemma lock_schedule_witness :
  Governor.lockedUntil
    (fst (Governor.recordLoginFailure "a" 9
            (Governor.recordFailures "a" [0; 1; 2; 3; 4; 5; 6; 7; 8] ∅))) = 9 + 2400000.
Proof.
  apply (lock_schedule "a" 9 (Governor.recordFailures "a" [0; 1; 2; 3; 4; 5; 6; 7; 8] ∅)).
  vm_compute. discriminate.
Defined.

(** X14: a denial by [canAttempt] comes from an entry whose lock is
    still running, leaves [loginAttempts] as it is, and tells the
    remaining time rounded up to whole seconds, at least one. *)
Theorem canAttempt_denied (ip : string) (now : Z) (m : gmap string Governor.Entry) :
  Governor.allowed (fst (Governor.canAttempt ip now m)) = false ->
  exists e r,
    m !! ip = Some e /\ now < Governor.lockedUntil e /\
    Governor.canAttempt ip now m =
      ({| Governor.allowed := false; Governor.retryAfter := Some r |}, m) /\
    1 <= r /\
    1000 * (r - 1) < Governor.lockedUntil e - now <= 1000 * r.
Proof.
  unfold Governor.canAttempt. destruct (m !! ip) as [e |]; [| discriminate].
  destruct (negb (Governor.lockedUntil e =? 0) && (now <? Governor.lockedUntil e)) eqn:El.
  - intros _. apply andb_true_iff in El as [_ El]. apply Z.ltb_lt in El.
    exists e, (Governor.ceilDiv (Governor.lockedUntil e - now) 1000).
    repeat split; trivial; unfold Governor.ceilDiv;
      Z.to_euclidean_division_equations; lia.
  - destruct (now - Governor.first e >? Governor.WINDOW_MS); discriminate.
Qed.

Lemma canAttempt_denied_witness :
  exists e r,
    Governor.recordFailures "a" [0; 1; 2; 3; 4; 5] ∅ !! "a" = Some e /\
    6000 < Governor.lockedUntil e /\
    Governor.canAttempt "a" 6000 (Governor.recordFailures "a" [0; 1; 2; 3; 4; 5] ∅) =
      ({| Governor.allowed := false; Governor.retryAfter := Some r |},
       Governor.recordFailures "a" [0; 1; 2; 3; 4; 5] ∅) /\
    1 <= r /\
    1000 * (r - 1) < Governor.lockedUntil e - 6000 <= 1000 * r.
Proof.
  apply (canAttempt_denied "a" 6000 (Governor.recordFailures "a" [0; 1; 2; 3; 4; 5] ∅)).
  reflexivity.
Defined.

Lemma applyOp_other (m : gmap string Governor.Entry) (op : GovernorOp) (ip : string) :
  opIp op <> ip -> applyOp m op !! ip = m !! ip.
Proof.
  intros Hne. destruct op as [ip0 now | ip0 now | ip0]; cbn [applyOp opIp] in *.
  - unfold Governor.canAttempt. destruct (m !! ip0) as [e |]; [| reflexivity].
    destruct (negb (Governor.lockedUntil e =? 0) && (now <? Governor.lockedUntil e));
      [reflexivity |].
    destruct (now - Governor.first e >? Governor.WINDOW_MS); [| reflexivity].
    cbn [snd]. now apply lookup_delete_ne.
  - rewrite recordLoginFailure_stored. now apply lookup_insert_ne.
  - unfold Governor.recordLoginSuccess. now apply lookup_delete_ne.
Qed.

Lemma applyOp_same (m1 m2 : gmap string Governor.Entry) (op : GovernorOp) :
  m1 !! opIp op = m2 !! opIp op ->
  applyOp m1 op !! opIp op = applyOp m2 op !! opIp op.
Proof.
  intros Heq. destruct op as [ip now | ip now | ip]; cbn [applyOp opIp] in *.
  - unfold Governor.canAttempt. rewrite <- Heq.
    destruct (m1 !! ip) as [e |] eqn:E1; [| cbn [snd]; congruence].
    destruct (negb (Governor.lockedUntil e =? 0) && (now <? Governor.lockedUntil e));
      [cbn [snd]; congruence |].
    destruct (now - Governor.first e >? Governor.WINDOW_MS); cbn [snd]; [| congruence].
    now rewrite !lookup_delete_eq.
  - rewrite !recordLoginFailure_stored, !lookup_insert_eq. f_equal.
    unfold Governor.recordLoginFailure. rewrite <- Heq.
    destruct (m1 !! ip); reflexivity.
  - unfold Governor.recordLoginSuccess. now rewrite !lookup_delete_eq.
Qed.

(** X15: identities do not interfere: the entry of an identity after
    any history of attempts, failures and successes is the one it has
    after its own operations alone. *)
Theorem governor_isolation (ops : list GovernorOp) (ip : string)
    (m : gmap string Governor.Entry) :
  runOps ops m !! ip =
  runOps (List.filter (fun op => String.eqb (opIp op) ip) ops) m !! ip.
Proof.
  enough (forall m1 m2 : gmap string Governor.Entry,
             m1 !! ip = m2 !! ip ->
             runOps ops m1 !! ip =
             runOps (List.filter (fun op => String.eqb (opIp op) ip) ops) m2 !! ip)
    as Hgen by now apply Hgen.
  induction ops as [| op ops IH]; intros m1 m2 Heq; [exact Heq |].
  cbn [List.filter]. destruct (String.eqb_spec (opIp op) ip) as [Hop | Hop].
  - unfold runOps. cbn [fold_left]. apply IH. subst ip. now apply applyOp_same.
  - unfold runOps at 1. cbn [fold_left]. apply IH.
    now rewrite applyOp_other.
Qed.

(** X16: in the order of the login route -- [canAttempt], then, once
    allowed, [recordLoginFailure] at the same time -- an entry whose
    window has expired is evicted and a new one created: the failure
    leaves [count = 1] and no lock; an entry within its window counts
    on. *)
Theorem failure_after_allowed_attempt (ip : string) (now : Z)
    (m : gmap string Governor.Entry) :
  Governor.allowed (fst (Governor.canAttempt ip now m)) = true ->
  fst (Governor.recordLoginFailure ip now (snd (Governor.canAttempt ip now m))) =
  match m !! ip with
  | Some e =>
      if now - Governor.first e >? Governor.WINDOW_MS then
        {| Governor.count := 1; Governor.first := now;
           Governor.last := now; Governor.lockedUntil := 0 |}
      else
        {| Governor.count := Governor.count e + 1; Governor.first := Governor.first e;
           Governor.last := now;
           Governor.lockedUntil :=
             if Governor.count e + 1 >? Governor.MAX_ATTEMPTS_WINDOW
             then now + Governor.lockMsOf
                          (Governor.count e + 1 - Governor.MAX_ATTEMPTS_WINDOW)
             else Governor.lockedUntil e |}
  | None =>
      {| Governor.count := 1; Governor.first := now;
         Governor.last := now; Governor.lockedUntil := 0 |}
  end.
Proof.
  unfold Governor.canAttempt. destruct (m !! ip) as [e |] eqn:Hm.
  - destruct (negb (Governor.lockedUntil e =? 0) && (now <? Governor.lockedUntil e));
      [discriminate |].
    destruct (Z.gtb_spec (now - Governor.first e) Governor.WINDOW_MS) as [Hw | Hw];
      intros _; cbn [snd].
    + rewrite recordLoginFailure_fresh by apply lookup_delete_eq. reflexivity.
    + apply (recordLoginFailure_counts_on ip now m e Hm). left. lia.
  - intros _. cbn [snd]. now rewrite recordLoginFailure_fresh.
Qed.

Lemma failure_after_allowed_attempt_witness :
  fst (Governor.recordLoginFailure "a" 3000000
         (snd (Governor.canAttempt "a" 3000000
                 (Governor.recordFailures "a" [0; 1; 2; 3; 4; 5] ∅)))) =
  {| Governor.count := 1; Governor.first := 3000000;
     Governor.last := 3000000; Governor.lockedUntil := 0 |}.
Proof.
  refine (eq_trans
            (failure_after_allowed_attempt "a" 3000000
               (Governor.recordFailures "a" [0; 1; 2; 3; 4; 5] ∅) _) _);
    reflexivity.
Defined.

(** ** The login route *)

Lemma canAttempt_locked (ip : string) (now : Z) (m : gmap string Governor.Entry)
    (e : Governor.Entry) :
  m !! ip = Some e -> Governor.lockedUntil e <> 0 -> now < Governor.lockedUntil e ->
  Governor.canAttempt ip now m =
  ({| Governor.allowed := false;
      Governor.retryAfter := Some (Governor.ceilDiv (Governor.lockedUntil e - now) 1000) |},
   m).
Proof.
  intros Hm H0 Hlt. unfold Governor.canAttempt. rewrite Hm.
  apply Z.eqb_neq in H0. apply Z.ltb_lt in Hlt. now rewrite H0, Hlt.
Qed.

Lemma canAttempt_cases (ip : string) (now : Z) (m : gmap string Governor.Entry) :
  Governor.canAttempt ip now m =
    (fst (Governor.canAttempt ip now m), snd (Governor.canAttempt ip now m)) /\
  (snd (Governor.canAttempt ip now m) = m \/
   snd (Governor.canAttempt ip now m) = delete ip m).
Proof.
  split; [apply surjective_pairing |].
  unfold Governor.canAttempt. destruct (m !! ip) as [e |]; [| now left].
  destruct (negb (Governor.lockedUntil e =? 0) && (now <? Governor.lockedUntil e));
    [now left |].
  destruct (now - Governor.first e >? Governor.WINDOW_MS); [now right | now left].
Qed.

Lemma canAttempt_unlocked (ip : string) (now : Z) (m : gmap string Governor.Entry)
    (c f l : Z) :
  m !! ip = Some {| Governor.count := c; Governor.first := f;
                    Governor.last := l; Governor.lockedUntil := 0 |} ->
  now - f <= Governor.WINDOW_MS ->
  Governor.canAttempt ip now m =
  ({| Governor.allowed := true; Governor.retryAfter := None |}, m).
Proof.
  intros Hm Hw. unfold Governor.canAttempt. rewrite Hm.
  cbn [Governor.lockedUntil Governor.first]. rewrite (gtb_false _ _ Hw). reflexivity.
Qed.

Lemma postLogin_fresh (auth : Auth) (clock : Clock) (req : LoginRequest)
    (m : gmap string Governor.Entry) :
  m !! getClientIp req = None ->
  truthy (body_username req) = true -> truthy (body_password req) = true ->
  authenticate auth (body_username req) (body_password req) = false ->
  postLogin auth clock req m =
  (InvalidCredentials 4,
   <[getClientIp req :=
       {| Governor.count := 1; Governor.first := now_recordFailure clock;
          Governor.last := now_recordFailure clock; Governor.lockedUntil := 0 |}]> m).
Proof.
  intros Hm Hu Hp Ha. unfold postLogin.
  unfold Governor.canAttempt. rewrite Hm. cbn [Governor.allowed negb].
  rewrite Hu, Hp, Ha. cbn [negb orb].
  rewrite (recordLoginFailure_fresh _ _ _ Hm). reflexivity.
Qed.

Lemma postLogin_counts_on (auth : Auth) (t : Z) (req : LoginRequest)
    (m : gmap string Governor.Entry) (c f l : Z) :
  m !! getClientIp req =
    Some {| Governor.count := c; Governor.first := f;
            Governor.last := l; Governor.lockedUntil := 0 |} ->
  0 <= t -> t - f <= Governor.WINDOW_MS ->
  truthy (body_username req) = true -> truthy (body_password req) = true ->
  authenticate auth (body_username req) (body_password req) = false ->
  postLogin auth (instant t) req m =
  (if c + 1 >? Governor.MAX_ATTEMPTS_WINDOW
   then Locked (Governor.ceilDiv
                  (Governor.lockMsOf (c + 1 - Governor.MAX_ATTEMPTS_WINDOW)) 1000)
   else InvalidCredentials (Z.max 0 (Governor.MAX_ATTEMPTS_WINDOW - (c + 1))),
   <[getClientIp req :=
       {| Governor.count := c + 1; Governor.first := f; Governor.last := t;
          Governor.lockedUntil :=
            if c + 1 >? Governor.MAX_ATTEMPTS_WINDOW
            then t + Governor.lockMsOf (c + 1 - Governor.MAX_ATTEMPTS_WINDOW)
            else 0 |}]> m).
Proof.
  intros Hm Ht Hw Hu Hp Ha. unfold postLogin. cbn [instant now_canAttempt
    now_recordFailure now_lockTest now_retryAfter].
  rewrite (canAttempt_unlocked _ t m c f l Hm Hw). cbn [Governor.allowed negb].
  rewrite Hu, Hp, Ha. cbn [negb orb].
  rewrite (surjective_pairing (Governor.recordLoginFailure _ t m)).
  rewrite recordLoginFailure_stored.
  rewrite (recordLoginFailure_counts_on _ t m _ Hm) by (left; exact Hw).
  cbn [Governor.count Governor.first Governor.last Governor.lockedUntil].
  destruct (Z.gtb_spec (c + 1) Governor.MAX_ATTEMPTS_WINDOW) as [Hgt | Hle];
    [| reflexivity].
  assert (Governor.BASE_LOCK_MS <=
          Governor.lockMsOf (c + 1 - Governor.MAX_ATTEMPTS_WINDOW)) as Hlock.
  { unfold Governor.lockMsOf, Governor.BASE_LOCK_MS.
    assert (0 < 2 ^ (c + 1 - Governor.MAX_ATTEMPTS_WINDOW - 1))
      by (apply Z.pow_pos_nonneg; lia).
    lia. }
  unfold Governor.BASE_LOCK_MS in Hlock.
  rewrite (proj2 (Z.eqb_neq _ 0)) by lia.
  rewrite (proj2 (Z.ltb_lt t _)) by lia.
  cbn [negb andb]. do 3 f_equal. lia.
Qed.

Lemma postLogins_cons (auth : Auth) (t : Z) (req : LoginRequest)
    (rest : list (Z * LoginRequest)) (m : gmap string Governor.Entry) :
  postLogins auth ((t, req) :: rest) m =
  (fst (postLogin auth (instant t) req m)
     :: fst (postLogins auth rest (snd (postLogin auth (instant t) req m))),
   snd (postLogins auth rest (snd (postLogin auth (instant t) req m)))).
Proof.
  cbn [postLogins]. destruct (postLogin auth (instant t) req m) as [resp m1].
  cbn [fst snd]. destruct (postLogins auth rest m1); reflexivity.
Qed.

Lemma postLogin_other (auth : Auth) (clock : Clock) (req : LoginRequest)
    (m : gmap string Governor.Entry) (ip : string) :
  ip <> getClientIp req -> snd (postLogin auth clock req m) !! ip = m !! ip.
Proof.
  intros Hne. unfold postLogin.
  destruct (canAttempt_cases (getClientIp req) (now_canAttempt clock) m) as [Hpair Hsnd].
  rewrite Hpair.
  assert (snd (Governor.canAttempt (getClientIp req) (now_canAttempt clock) m) !! ip
          = m !! ip) as Hkeep.
  { destruct Hsnd as [-> | ->]; [reflexivity |]. now apply lookup_delete_ne. }
  destruct (negb (Governor.allowed _)); [exact Hkeep |].
  destruct (negb (truthy (body_username req)) || negb (truthy (body_password req)));
    [exact Hkeep |].
  destruct (negb (authenticate auth (body_username req) (body_password req))).
  - rewrite (surjective_pairing (Governor.recordLoginFailure _ _ _)).
    rewrite recordLoginFailure_stored.
    destruct (negb _ && _); cbn [snd]; now rewrite lookup_insert_ne.
  - cbn [snd]. unfold Governor.recordLoginSuccess. now rewrite lookup_delete_ne.
Qed.

Example login_right_password_while_locked :
  fst (postLogins exampleAuth
         [(0, wrongPassword "a"); (1, wrongPassword "a"); (2, wrongPassword "a");
          (3, wrongPassword "a"); (4, wrongPassword "a"); (5, wrongPassword "a");
          (6000, rightPassword "a"); (300005, rightPassword "a")] ∅) =
  [InvalidCredentials 4; InvalidCredentials 3; InvalidCredentials 2;
   InvalidCredentials 1; InvalidCredentials 0; Locked 300;
   TooManyAttempts (Some 295);
   LoggedIn (JStr "admin")
     "session=( {token}; HttpOnly; SameSite=Lax; Path=/; Max-Age= ){12*60*60}"].
Proof. reflexivity. Qed.

Lemma postLogin_locked (auth : Auth) (clock : Clock) (req : LoginRequest)
    (m : gmap string Governor.Entry) (e : Governor.Entry) :
  m !! getClientIp req = Some e ->
  Governor.lockedUntil e <> 0 -> now_canAttempt clock < Governor.lockedUntil e ->
  postLogin auth clock req m =
  (TooManyAttempts
     (Some (Governor.ceilDiv (Governor.lockedUntil e - now_canAttempt clock) 1000)),
   m).
Proof.
  intros Hm H0 Hlt. unfold postLogin.
  now rewrite (canAttempt_locked _ _ m e Hm H0 Hlt).
Qed.

(** X17: while an identity's lock runs, the login route answers 429
    [TOO_MANY_ATTEMPTS] with the remaining seconds and changes nothing,
    whatever credentials the request carries -- the right password
    included. *)
Theorem login_locked (auth : Auth) (clock : Clock) (req : LoginRequest)
    (m : gmap string Governor.Entry) (e : Governor.Entry) :
  m !! getClientIp req = Some e ->
  Governor.lockedUntil e <> 0 -> now_canAttempt clock < Governor.lockedUntil e ->
  postLogin auth clock req m =
  (TooManyAttempts
     (Some (Governor.ceilDiv (Governor.lockedUntil e - now_canAttempt clock) 1000)),
   m).
Proof.
  intros Hm H0 Hlt. now apply postLogin_locked.
Qed.

Lemma login_locked_witness :
  postLogin exampleAuth (instant 6000) (rightPassword "a")
    (Governor.recordFailures "a" [0; 1; 2; 3; 4; 5] ∅) =
  (TooManyAttempts (Some (Governor.ceilDiv (300005 - 6000) 1000)),
   Governor.recordFailures "a" [0; 1; 2; 3; 4; 5] ∅).
Proof.
  apply (login_locked exampleAuth (instant 6000) (rightPassword "a")
           (Governor.recordFailures "a" [0; 1; 2; 3; 4; 5] ∅)
           {| Governor.count := 6; Governor.first := 0;
              Governor.last := 5; Governor.lockedUntil := 300005 |}).
  - reflexivity.
  - discriminate.
  - reflexivity.
Defined.

(** X18: a login that is allowed and authenticates answers 200 with the
    user name and the [Set-Cookie] header, whose text is the same for
    every login and does not hold the issued token; it removes the
    identity's entry and touches no other; the next failure from that
    identity starts again at [count = 1] without lock. *)
Theorem login_success_clears (auth : Auth) (clock : Clock) (req : LoginRequest)
    (m : gmap string Governor.Entry) :
  Governor.allowed
    (fst (Governor.canAttempt (getClientIp req) (now_canAttempt clock) m)) = true ->
  truthy (body_username req) = true -> truthy (body_password req) = true ->
  authenticate auth (body_username req) (body_password req) = true ->
  fst (postLogin auth clock req m) =
    LoggedIn (body_username req)
      "session=( {token}; HttpOnly; SameSite=Lax; Path=/; Max-Age= ){12*60*60}" /\
  snd (postLogin auth clock req m) !! getClientIp req = None /\
  (forall ip, ip <> getClientIp req -> snd (postLogin auth clock req m) !! ip = m !! ip) /\
  (forall t,
      fst (Governor.recordLoginFailure (getClientIp req) t
             (snd (postLogin auth clock req m))) =
      {| Governor.count := 1; Governor.first := t;
         Governor.last := t; Governor.lockedUntil := 0 |}).
Proof.
  intros Hal Hu Hp Ha.
  assert (postLogin auth clock req m =
          (LoggedIn (body_username req)
             (sessionCookie (issueSession auth (body_username req))),
           Governor.recordLoginSuccess (getClientIp req)
             (snd (Governor.canAttempt (getClientIp req) (now_canAttempt clock) m))))
    as Hpost.
  { unfold postLogin.
    rewrite (surjective_pairing (Governor.canAttempt _ _ _)).
    now rewrite Hal, Hu, Hp, Ha. }
  assert (snd (postLogin auth clock req m) !! getClientIp req = None) as Hnone.
  { rewrite Hpost. cbn [snd]. apply lookup_delete_eq. }
  split; [now rewrite Hpost |]. split; [exact Hnone |].
  split; [intros ip Hne; now apply postLogin_other |].
  intros t. now rewrite (recordLoginFailure_fresh _ t _ Hnone).
Qed.

Lemma login_success_clears_witness :
  fst (postLogin exampleAuth (instant 4000) (rightPassword "a")
         (Governor.recordFailures "a" [0; 1; 2] ∅)) =
    LoggedIn (JStr "admin")
      "session=( {token}; HttpOnly; SameSite=Lax; Path=/; Max-Age= ){12*60*60}" /\
  snd (postLogin exampleAuth (instant 4000) (rightPassword "a")
         (Governor.recordFailures "a" [0; 1; 2] ∅)) !! "a" = None.
Proof.
  pose proof (login_success_clears exampleAuth (instant 4000) (rightPassword "a")
                (Governor.recordFailures "a" [0; 1; 2] ∅)
                eq_refl eq_refl eq_refl eq_refl) as (H1 & H2 & _).
  split; [exact H1 | exact H2].
Defined.

Example missing_password_under_lock :
  postLogin exampleAuth (instant 6000)
    {| body_username := JStr "admin"; body_password := JStr "";
       header_forwarded_for := None; remoteAddress := Some "a" |}
    (Governor.recordFailures "a" [0; 1; 2; 3; 4; 5] ∅) =
  (TooManyAttempts (Some 295), Governor.recordFailures "a" [0; 1; 2; 3; 4; 5] ∅).
Proof. reflexivity. Qed.

(** X19: a request without user name or password is never counted as a
    failure.  It is answered 429 with the remaining seconds, and nothing
    changes, exactly when the identity has an entry whose lock is
    running; otherwise it is answered 400, and the identity's entry is
    removed when its window has expired and left as it is when not. *)
Theorem login_missing_credentials (auth : Auth) (clock : Clock) (req : LoginRequest)
    (m : gmap string Governor.Entry) :
  truthy (body_username req) = false \/ truthy (body_password req) = false ->
  postLogin auth clock req m =
  match m !! getClientIp req with
  | None => (MissingCredentials, m)
  | Some e =>
      if lockActive e (now_canAttempt clock) then
        (TooManyAttempts
           (Some (Governor.ceilDiv (Governor.lockedUntil e - now_canAttempt clock) 1000)),
         m)
      else if now_canAttempt clock - Governor.first e >? Governor.WINDOW_MS then
        (MissingCredentials, delete (getClientIp req) m)
      else (MissingCredentials, m)
  end.
Proof.
  intros Hmiss.
  assert (negb (truthy (body_username req)) || negb (truthy (body_password req)) = true)
    as Hor by (destruct Hmiss as [-> | ->]; [reflexivity | apply orb_true_r]).
  unfold postLogin, Governor.canAttempt, lockActive.
  destruct (m !! getClientIp req) as [e |]; cbn [Governor.allowed negb].
  - destruct (negb (Governor.lockedUntil e =? 0)
              && (now_canAttempt clock <? Governor.lockedUntil e));
      cbn [Governor.allowed Governor.retryAfter negb]; [reflexivity |].
    destruct (now_canAttempt clock - Governor.first e >? Governor.WINDOW_MS);
      cbn [Governor.allowed negb]; now rewrite Hor.
  - now rewrite Hor.
Qed.

Lemma login_missing_credentials_witness :
  postLogin exampleAuth (instant 7)
    {| body_username := JStr "admin"; body_password := JUndefined;
       header_forwarded_for := None; remoteAddress := Some "a" |}
    (Governor.recordFailures "a" [0; 1; 2] ∅) =
  (MissingCredentials, Governor.recordFailures "a" [0; 1; 2] ∅).
Proof.
  refine (eq_trans
            (login_missing_credentials exampleAuth (instant 7)
               {| body_username := JStr "admin"; body_password := JUndefined;
                  header_forwarded_for := None; remoteAddress := Some "a" |}
               (Governor.recordFailures "a" [0; 1; 2] ∅) _) _).
  - right. reflexivity.
  - reflexivity.
Defined.

Lemma postLogin_below (auth : Auth) (t : Z) (req : LoginRequest)
    (m : gmap string Governor.Entry) (c f l : Z) :
  m !! getClientIp req =
    Some {| Governor.count := c; Governor.first := f;
            Governor.last := l; Governor.lockedUntil := 0 |} ->
  c + 1 <= Governor.MAX_ATTEMPTS_WINDOW ->
  0 <= t -> t - f <= Governor.WINDOW_MS ->
  truthy (body_username req) = true -> truthy (body_password req) = true ->
  authenticate auth (body_username req) (body_password req) = false ->
  postLogin auth (instant t) req m =
  (InvalidCredentials (Z.max 0 (Governor.MAX_ATTEMPTS_WINDOW - (c + 1))),
   <[getClientIp req :=
       {| Governor.count := c + 1; Governor.first := f;
          Governor.last := t; Governor.lockedUntil := 0 |}]> m).
Proof.
  intros Hm Hc Ht Hw Hu Hp Ha.
  rewrite (postLogin_counts_on auth t req m c f l Hm Ht Hw Hu Hp Ha).
  now rewrite (gtb_false _ _ Hc).
Qed.

Lemma postLogin_over (auth : Auth) (t : Z) (req : LoginRequest)
    (m : gmap string Governor.Entry) (c f l : Z) :
  m !! getClientIp req =
    Some {| Governor.count := c; Governor.first := f;
            Governor.last := l; Governor.lockedUntil := 0 |} ->
  Governor.MAX_ATTEMPTS_WINDOW < c + 1 ->
  0 <= t -> t - f <= Governor.WINDOW_MS ->
  truthy (body_username req) = true -> truthy (body_password req) = true ->
  authenticate auth (body_username req) (body_password req) = false ->
  postLogin auth (instant t) req m =
  (Locked (Governor.ceilDiv
             (Governor.lockMsOf (c + 1 - Governor.MAX_ATTEMPTS_WINDOW)) 1000),
   <[getClientIp req :=
       {| Governor.count := c + 1; Governor.first := f; Governor.last := t;
          Governor.lockedUntil :=
            t + Governor.lockMsOf (c + 1 - Governor.MAX_ATTEMPTS_WINDOW) |}]> m).
Proof.
  intros Hm Hc Ht Hw Hu Hp Ha.
  rewrite (postLogin_counts_on auth t req m c f l Hm Ht Hw Hu Hp Ha).
  now rewrite (gtb_true _ _ Hc).
Qed.

(** X20: six logins with a wrong password from an identity without
    entry, within the window, are answered 401 with 4, 3, 2, 1 and 0
    attempts remaining and then 429 [LOCKED] for 300 seconds; until the
    lock ends any further request from that identity is answered 429
    [TOO_MANY_ATTEMPTS] with the seconds that remain. *)
Theorem login_brute_force (auth : Auth) (bad any : LoginRequest)
    (m : gmap string Governor.Entry) (t1 t2 t3 t4 t5 t6 t7 : Z) :
  getClientIp any = getClientIp bad ->
  m !! getClientIp bad = None ->
  truthy (body_username bad) = true -> truthy (body_password bad) = true ->
  authenticate auth (body_username bad) (body_password bad) = false ->
  0 <= t1 -> t1 <= t2 -> t2 <= t3 -> t3 <= t4 -> t4 <= t5 -> t5 <= t6 ->
  t6 - t1 <= Governor.WINDOW_MS ->
  t6 <= t7 -> t7 < t6 + Governor.BASE_LOCK_MS ->
  fst (postLogins auth
         [(t1, bad); (t2, bad); (t3, bad); (t4, bad); (t5, bad); (t6, bad); (t7, any)] m) =
  [InvalidCredentials 4; InvalidCredentials 3; InvalidCredentials 2;
   InvalidCredentials 1; InvalidCredentials 0; Locked 300;
   TooManyAttempts (Some (Governor.ceilDiv (t6 + Governor.BASE_LOCK_MS - t7) 1000))].
Proof.
  intros Hip Hm Hu Hp Ha H0 H12 H23 H34 H45 H56 Hw H67 H7.
  unfold Governor.WINDOW_MS, Governor.BASE_LOCK_MS in *.
  rewrite !postLogins_cons. cbn [postLogins fst snd].
  rewrite (postLogin_fresh auth (instant t1) bad m Hm Hu Hp Ha).
  cbn [fst snd instant now_recordFailure].
  erewrite (postLogin_below auth t2 bad (<[_ := _]> _));
    [ | apply lookup_insert_eq | unfold Governor.MAX_ATTEMPTS_WINDOW;
      unfold Governor.WINDOW_MS; lia .. | exact Hu | exact Hp | exact Ha ].
  cbn [fst snd].
  erewrite (postLogin_below auth t3 bad (<[_ := _]> _));
    [ | apply lookup_insert_eq | unfold Governor.MAX_ATTEMPTS_WINDOW;
      unfold Governor.WINDOW_MS; lia .. | exact Hu | exact Hp | exact Ha ].
  cbn [fst snd].
  erewrite (postLogin_below auth t4 bad (<[_ := _]> _));
    [ | apply lookup_insert_eq | unfold Governor.MAX_ATTEMPTS_WINDOW;
      unfold Governor.WINDOW_MS; lia .. | exact Hu | exact Hp | exact Ha ].
  cbn [fst snd].
  erewrite (postLogin_below auth t5 bad (<[_ := _]> _));
    [ | apply lookup_insert_eq | unfold Governor.MAX_ATTEMPTS_WINDOW;
      unfold Governor.WINDOW_MS; lia .. | exact Hu | exact Hp | exact Ha ].
  cbn [fst snd].
  erewrite (postLogin_over auth t6 bad (<[_ := _]> _));
    [ | apply lookup_insert_eq | unfold Governor.MAX_ATTEMPTS_WINDOW;
      unfold Governor.WINDOW_MS; lia .. | exact Hu | exact Hp | exact Ha ].
  cbn [fst snd].
  rewrite <- Hip.
  erewrite (postLogin_locked auth (instant t7) any);
    [ | apply lookup_insert_eq | | ];
    cbn [Governor.lockedUntil instant now_canAttempt].
  - reflexivity.
  - vm_compute (Governor.lockMsOf _). lia.
  - vm_compute (Governor.lockMsOf _). lia.
Qed.

Lemma login_brute_force_witness :
  fst (postLogins exampleAuth
         [(0, wrongPassword "a"); (1000, wrongPassword "a"); (2000, wrongPassword "a");
          (3000, wrongPassword "a"); (4000, wrongPassword "a"); (5000, wrongPassword "a");
          (6000, rightPassword "a")] ∅) =
  [InvalidCredentials 4; InvalidCredentials 3; InvalidCredentials 2;
   InvalidCredentials 1; InvalidCredentials 0; Locked 300;
   TooManyAttempts (Some (Governor.ceilDiv (5000 + Governor.BASE_LOCK_MS - 6000) 1000))].
Proof.
  apply (login_brute_force exampleAuth (wrongPassword "a") (rightPassword "a") ∅
           0 1000 2000 3000 4000 5000 6000);
    try reflexivity; try (unfold Governor.WINDOW_MS, Governor.BASE_LOCK_MS; lia).
Defined.

(** X21: the lock follows the identity, not the account: wrong-password
    logins that each come from an identity without entry -- for
    instance, each with another [X-Forwarded-For] value -- are all
    answered 401 with 4 attempts remaining, however many they are. *)
Theorem login_rotating_identities (auth : Auth) (requests : list (Z * LoginRequest))
    (m : gmap string Governor.Entry) :
  NoDup (List.map (fun tr => getClientIp (snd tr)) requests) ->
  Forall (fun tr => m !! getClientIp (snd tr) = None /\
                    truthy (body_username (snd tr)) = true /\
                    truthy (body_password (snd tr)) = true /\
                    authenticate auth (body_username (snd tr))
                      (body_password (snd tr)) = false) requests ->
  fst (postLogins auth requests m) =
  List.map (fun _ => InvalidCredentials 4) requests.
Proof.
  revert m. induction requests as [| [t req] rest IH]; intros m Hnd Hall; [reflexivity |].
  cbn [List.map snd] in Hnd. apply NoDup_cons in Hnd as [Hnotin Hnd].
  apply Forall_cons in Hall as [(Hm & Hu & Hp & Ha) Hall]. cbn [snd] in *.
  rewrite postLogins_cons, (postLogin_fresh auth (instant t) req m Hm Hu Hp Ha).
  cbn [fst snd List.map]. f_equal. apply IH; [exact Hnd |].
  apply List.Forall_forall. intros [t' req'] Hin.
  rewrite List.Forall_forall in Hall. specialize (Hall _ Hin). cbn [snd] in *.
  destruct Hall as (Hm' & Hrest). split; [| exact Hrest].
  rewrite lookup_insert_ne; [exact Hm' |].
  intros Heq. apply Hnotin. apply list_elem_of_In, List.in_map_iff.
  exists (t', req'). split; [now cbn [snd] | exact Hin].
Qed.

Lemma login_rotating_identities_witness :
  fst (postLogins exampleAuth
         [(0, wrongPassword "10.0.0.1"); (1, wrongPassword "10.0.0.2");
          (2, wrongPassword "10.0.0.3"); (3, wrongPassword "10.0.0.4");
          (4, wrongPassword "10.0.0.5"); (5, wrongPassword "10.0.0.6");
          (6, wrongPassword "10.0.0.7")] ∅) =
  List.map (fun _ => InvalidCredentials 4)
    [(0, wrongPassword "10.0.0.1"); (1, wrongPassword "10.0.0.2");
     (2, wrongPassword "10.0.0.3"); (3, wrongPassword "10.0.0.4");
     (4, wrongPassword "10.0.0.5"); (5, wrongPassword "10.0.0.6");
     (6, wrongPassword "10.0.0.7")].
Proof.
  apply (login_rotating_identities exampleAuth).
  - apply (bool_decide_unpack _). vm_compute. exact I.
  - repeat (constructor; [repeat split; reflexivity |]). constructor.
Defined.

(** ** More on the scorers *)

Lemma upper_lower_char (c : ascii) :
  upperAscii (lowerAscii c) = upperAscii c /\ upperAscii (upperAscii c) = upperAscii c.
Proof. destruct c as [[] [] [] [] [] [] [] []]; split; reflexivity. Qed.

Lemma toUpperCase_lower (s : string) : toUpperCase (toLowerCase s) = toUpperCase s.
Proof.
  induction s as [| c s IH]; [reflexivity |].
  cbn [toLowerCase toUpperCase]. now rewrite IH, (proj1 (upper_lower_char c)).
Qed.

Lemma toUpperCase_idem (s : string) : toUpperCase (toUpperCase s) = toUpperCase s.
Proof.
  induction s as [| c s IH]; [reflexivity |].
  cbn [toUpperCase]. now rewrite IH, (proj2 (upper_lower_char c)).
Qed.

Lemma toUpperCase_app (a b : string) :
  toUpperCase (a +:+ b) = toUpperCase a +:+ toUpperCase b.
Proof.
  induction a as [| c a IH]; [reflexivity |].
  rewrite append_String. cbn [toUpperCase]. now rewrite IH, append_String.
Qed.

(** The scores depend on the label through its upper-casing only. *)
Lemma scores_by_upper (a b : string) :
  toUpperCase a = toUpperCase b ->
  getQualityScore (JStr a) = getQualityScore (JStr b) /\
  qualityScore (JStr a) = qualityScore (JStr b).
Proof.
  intros Hab.
  assert (String.eqb a "" = String.eqb b "") as He.
  { destruct a, b; try reflexivity; discriminate. }
  unfold getQualityScore, qualityScore, truthy, typeofString.
  rewrite He, Hab. split; reflexivity.
Qed.

Lemma startsWith_app (k s b : string) :
  startsWith k s = true -> startsWith k (s +:+ b) = true.
Proof.
  revert s. induction k as [| c k IH]; intros s H; [reflexivity |].
  destruct s as [| d s]; [discriminate |].
  rewrite append_String. cbn [startsWith] in *.
  apply andb_true_iff in H as [Hc H]. now rewrite Hc, IH.
Qed.

Lemma includes_app_r (k s b : string) :
  includes s k = true -> includes (s +:+ b) k = true.
Proof.
  induction s as [| d s IH]; intros H.
  - cbn [includes] in H. rewrite orb_false_r in H.
    destruct k; [| discriminate]. destruct b; reflexivity.
  - rewrite append_String. cbn [includes] in *.
    apply orb_true_iff in H as [H | H].
    + rewrite <- append_String, (startsWith_app _ _ b H). reflexivity.
    + rewrite (IH H). apply orb_true_r.
Qed.

Lemma includes_app_l (k a s : string) :
  includes s k = true -> includes (a +:+ s) k = true.
Proof.
  intros H. induction a as [| c a IH]; [exact H |].
  rewrite append_String. cbn [includes]. rewrite IH. apply orb_true_r.
Qed.

Lemma includes_decorated (k pre s post : string) :
  includes s k = true -> includes (pre +:+ s +:+ post) k = true.
Proof. intros H. now apply includes_app_l, includes_app_r. Qed.

Example decorated_label : getQualityScore (JStr "[WEB] 1080p x265") = 80.
Proof. reflexivity. Qed.

(** X22: the scores stay on their scales: [getQualityScore] returns one
    of 0, 20, 40, 60, 80, 90, 100 on every value, and [qualityScore]
    returns one of 0, 2, 4, 6, 8, 10 unless the quality is a truthy
    value that is not a string, on which it throws. *)
Theorem score_scales (q : JsVal) :
  In (getQualityScore q) [0; 20; 40; 60; 80; 90; 100] /\
  (if badQuality q
   then qualityScore q = Throw (mkError "quality.toUpperCase is not a function")
   else exists z, qualityScore q = Normal z /\ In z [0; 2; 4; 6; 8; 10]).
Proof.
  split; [apply getQualityScore_range |].
  destruct (badQuality q) eqn:Eb; [now apply qualityScore_bad |].
  rewrite (qualityScore_good q Eb). eexists. split; [reflexivity |].
  unfold qualityScore.
  repeat match goal with
         | |- context [if ?b then _ else _] => destruct b
         | |- context [match ?v with JStr _ => _ | _ => _ end] => destruct v
         end; simpl; tauto.
Qed.

(** X23: both scorers are blind to letter case: a label, its
    lower-casing and its upper-casing get the same score. *)
Theorem scores_ignore_case (s : string) :
  getQualityScore (JStr (toLowerCase s)) = getQualityScore (JStr s) /\
  getQualityScore (JStr (toUpperCase s)) = getQualityScore (JStr s) /\
  qualityScore (JStr (toLowerCase s)) = qualityScore (JStr s) /\
  qualityScore (JStr (toUpperCase s)) = qualityScore (JStr s).
Proof.
  destruct (scores_by_upper (toLowerCase s) s (toUpperCase_lower s)) as [H1 H2].
  destruct (scores_by_upper (toUpperCase s) s (toUpperCase_idem s)) as [H3 H4].
  repeat split; assumption.
Qed.

(** X24: text around a label never lowers its score with
    [getQualityScore]: the score of [pre + label + post] is at least that
    of [label]. *)
Theorem score_of_decorated_label (pre label post : string) :
  getQualityScore (JStr label) <= getQualityScore (JStr (pre +:+ label +:+ post)).
Proof.
  destruct (String.eqb_spec label "") as [-> | Hl].
  { pose proof (getQualityScore_range (JStr (pre +:+ "" +:+ post))) as Hr.
    change (getQualityScore (JStr "")) with 0.
    cbn [In] in Hr. lia. }
  assert (pre +:+ label +:+ post <> "") as Hd.
  { destruct pre; [destruct label; [contradiction | discriminate] | discriminate]. }
  unfold getQualityScore.
  rewrite (truthy_nonempty _ Hl), (truthy_nonempty _ Hd).
  cbn [negb orb typeofString].
  rewrite !toUpperCase_app.
  pose proof (fun k => includes_decorated k (toUpperCase pre) (toUpperCase label)
                         (toUpperCase post)) as Hinc.
  remember (toUpperCase pre +:+ toUpperCase label +:+ toUpperCase post) as d eqn:Ed.
  remember (toUpperCase label) as u eqn:Eu. clear Ed Eu Hl Hd.
  pose proof (Hinc "4K") as H1. pose proof (Hinc "2160") as H2.
  pose proof (Hinc "1440") as H3. pose proof (Hinc "2K") as H4.
  pose proof (Hinc "1080") as H5. pose proof (Hinc "720") as H6.
  pose proof (Hinc "480") as H7. pose proof (Hinc "SD") as H8. clear Hinc.
  destruct (includes u "4K"); [rewrite (H1 eq_refl); cbn [orb]; lia |].
  destruct (includes u "2160"); [rewrite (H2 eq_refl), !orb_true_r; cbn [orb]; lia |].
  cbn [orb].
  destruct (includes d "4K" || includes d "2160");
    [repeat match goal with |- context [if ?b then _ else _] => destruct b end; lia |].
  destruct (includes u "1440"); [rewrite (H3 eq_refl); cbn [orb]; lia |].
  destruct (includes u "2K"); [rewrite (H4 eq_refl), !orb_true_r; cbn [orb]; lia |].
  cbn [orb].
  destruct (includes d "1440" || includes d "2K");
    [repeat match goal with |- context [if ?b then _ else _] => destruct b end; lia |].
  destruct (includes u "1080"); [rewrite (H5 eq_refl); cbn [orb]; lia |].
  destruct (includes d "1080");
    [repeat match goal with |- context [if ?b then _ else _] => destruct b end; lia |].
  destruct (includes u "720"); [rewrite (H6 eq_refl); cbn [orb]; lia |].
  destruct (includes d "720");
    [repeat match goal with |- context [if ?b then _ else _] => destruct b end; lia |].
  destruct (includes u "480"); [rewrite (H7 eq_refl); cbn [orb]; lia |].
  destruct (includes u "SD"); [rewrite (H8 eq_refl), !orb_true_r; cbn [orb]; lia |].
  cbn [orb]. destruct (includes d "480" || includes d "SD"); lia.
Qed.

(** X25: the timing table does not depend on the order in which the
    providers are selected (nor, therefore, on the order in which their
    calls complete): a batch that resolves for one order resolves for
    every other with the same timings, while the streams come in
    selection order. *)
Theorem providerTimings_order (env : Env) (req : Request) (imdbId : option string)
    (names names' : list string) (results : list (list Stream))
    (timings : gmap string Timing) :
  Permutation names names' ->
  fanOut env req imdbId names ∅ = Normal (results, timings) ->
  results = List.map (contribution env req imdbId) names /\
  fanOut env req imdbId names' ∅ =
    Normal (List.map (contribution env req imdbId) names', timings).
Proof.
  intros Hperm Hfan.
  destruct (fanOut_Normal env req imdbId _ _ _ _ Hfan) as (Hrs & _ & _).
  split; [exact Hrs |].
  destruct (fanOut_order env req imdbId names names' ∅ results timings Hperm Hfan)
    as (rs' & Hfan').
  destruct (fanOut_Normal env req imdbId _ _ _ _ Hfan') as (Hrs' & _ & _).
  now rewrite Hfan', Hrs'.
Qed.

Lemma providerTimings_order_witness :
  fanOut (exampleEnv false [] oneRejects) (exampleRequest "" None) None
    ["c"; "a"; "b"] ∅ =
  Normal (List.map (contribution (exampleEnv false [] oneRejects)
                      (exampleRequest "" None) None) ["c"; "a"; "b"],
          <["c" := TimingMs 30]> (<["b" := TimingNull]> (<["a" := TimingMs 12]> ∅))).
Proof.
  apply (providerTimings_order (exampleEnv false [] oneRejects) (exampleRequest "" None)
           None ["a"; "b"; "c"] ["c"; "a"; "b"] [[a720]; []; [c1080]]).
  - apply Permutation_sym, (Permutation_cons_append ["a"; "b"] "c").
  - reflexivity.
Defined.
